(** * create_model_file.py: clustering, switch rates and lag correlations

    A shallow embedding of [create_model_file.py] (FLARE model-file builder)
    and the properties of its natural-language specification.

    Conventions of the embedding.
    - A Python [int] is a [Z]; a [len] is a [nat].
    - A Python / numpy float is a real number ([R]): arithmetic is exact, so
      every statement about floats below is a statement about the idealised
      real-number computation.  A numpy [nan] only arises in [np.corrcoef];
      its result is a [pyfloat].
    - A Python exception is a constructor of [exn]; a function that may raise
      returns a [result].
    - [GaussianMixture(...).fit/.predict] (scikit-learn) is not part of the
      program: it is a parameter [fit] of the functions that call it. *)

From Stdlib Require Import Reals Lra Lia ZArith String Bool Arith List.
Import ListNotations.

Open Scope R_scope.

(** ** Python exceptions and the error monad *)

Inductive exn : Type :=
| SystemExit (stderr : string)   (* [raise SystemExit] after a diagnostic line *)
| IndexError
| ValueError
| ZeroDivisionError
| TypeError
| NameError.

Inductive result (A : Type) : Type :=
| Ok (a : A)
| Raise (e : exn).
Arguments Ok {A} a.
Arguments Raise {A} e.

Definition bind {A B : Type} (m : result A) (k : A -> result B) : result B :=
  match m with
  | Ok a => k a
  | Raise e => Raise e
  end.

Notation "x <- m ;; k" := (bind m (fun x => k))
  (at level 61, m at next level, right associativity).
Notation "' p <- m ;; k" := (bind m (fun p => k))
  (at level 61, p pattern, m at next level, right associativity).

Fixpoint mapM {A B : Type} (f : A -> result B) (l : list A) : result (list B) :=
  match l with
  | [] => Ok []
  | a :: l' => b <- f a ;; bs <- mapM f l' ;; Ok (b :: bs)
  end.

(** ** Python built-ins used by the script *)

Module Py.

(** [range(n)] *)
Definition range (n : Z) : list Z := map Z.of_nat (seq 0 (Z.to_nat n)).

(** [range(0, n, step)] for a length [n] and a step that is a length;
    a zero step raises [ValueError]. *)
Definition range_step (n step : nat) : result (list nat) :=
  match step with
  | O => Raise ValueError
  | S _ => Ok (map (fun k => (k * step)%nat) (seq 0 ((n + step - 1) / step)))
  end.

(** Normalisation of a slice bound against a length: a negative bound counts
    from the end, and both are clamped to [0, len]. *)
Definition slice_bound (len : nat) (i : Z) : nat :=
  if (i <? 0)%Z then Z.to_nat (Z.max (i + Z.of_nat len) 0)
  else Z.to_nat (Z.min i (Z.of_nat len)).

(** [l[start:]] *)
Definition slice_from {A : Type} (l : list A) (start : Z) : list A :=
  skipn (slice_bound (length l) start) l.

(** [l[:stop]] *)
Definition slice_to {A : Type} (l : list A) (stop : Z) : list A :=
  firstn (slice_bound (length l) stop) l.

(** [l[i:i+n]] for lengths [i], [n] *)
Definition slice_len {A : Type} (l : list A) (i n : nat) : list A :=
  firstn n (skipn i l).

(** [l[j]] for [j >= 0] *)
Definition getitem {A : Type} (l : list A) (j : nat) : result A :=
  match nth_error l j with
  | Some a => Ok a
  | None => Raise IndexError
  end.

(** [sum(l)] over floats *)
Definition fsum (l : list R) : R := fold_left Rplus l 0.

(** [any([x != y for x, y in zip(xs, ys)])] on ints *)
Definition any_differ (xs ys : list Z) : bool :=
  existsb (fun p => negb (fst p =? snd p)%Z) (combine xs ys).

(** [l[i].append(v)] for [i >= 0] *)
Definition append_at {A : Type} (l : list (list A)) (i : nat) (v : A)
  : result (list (list A)) :=
  match nth_error l i with
  | None => Raise IndexError
  | Some row => Ok (firstn i l ++ [row ++ [v]] ++ skipn (S i) l)
  end.

End Py.

(** ** Reading the panels file (lines 27-69) *)

Module Reader.

(** A line of the body after [line.split()] and the conversions of line 42
    and 61: a comment line, or a record
    [locindex chrom:pos hapindex rho p_1 ... p_n]. *)
Inductive line : Type :=
| Comment
| Rec (locindex : Z) (chrom : string) (hapindex : Z) (thisrho : R)
      (probs : list R).

(** The module-level variables the loop updates.  [oldchrom] starts as the
    int [-1], which no string equals: [None].  [oldhapindices] is unbound
    until line 58 runs: [None]. *)
Record state : Type := mkState {
  panelprobs : list (list (list R));
  rhovals : list (list R);
  panelprobschrom : list (list (list R));
  rhovalschrom : list (list R);
  oldlocindex : Z;
  hapindices : list Z;
  oldhapindices : option (list Z);
  oldchrom : option string
}.

Definition init : state :=
  mkState [] [] [] [] (-1) [] None None.

Definition msg_hap : string := "haplotype indicies inconsistent across positions".
Definition msg_panels : string := "number of panels varies".

Definition chrom_differs (chrom : string) (old : option string) : bool :=
  match old with
  | None => true
  | Some c => negb (String.eqb chrom c)
  end.

(** Lines 43-49. *)
Definition on_chrom (chrom : string) (st : state) : state :=
  if chrom_differs chrom (oldchrom st) then
    let pp := if (0 <? length (panelprobschrom st))%nat
              then panelprobs st ++ panelprobschrom st else panelprobs st in
    let rv := if (0 <? length (panelprobschrom st))%nat
              then rhovals st ++ rhovalschrom st else rhovals st in
    mkState pp rv [] [] (oldlocindex st) (hapindices st) (oldhapindices st)
            (Some chrom)
  else st.

(** Lines 50-59. *)
Definition on_location (locindex : Z) (st : state) : result state :=
  if negb (locindex =? oldlocindex st)%Z then
    let ppc := panelprobschrom st ++ [[]] in
    let rvc := rhovalschrom st ++ [[]] in
    _ <- (if (0 <? length (hapindices st))%nat then
            match oldhapindices st with
            | None => Raise NameError
            | Some old =>
                if Py.any_differ (hapindices st) old
                then Raise (SystemExit msg_hap) else Ok tt
            end
          else Ok tt) ;;
    Ok (mkState (panelprobs st) (rhovals st) ppc rvc locindex
                [] (Some (hapindices st)) (oldchrom st))
  else Ok st.

(** Lines 60-66.  Both appends index with [len(panelprobschrom)-1], which
    is [-1] on an empty list: [IndexError]. *)
Definition on_record (npanel : nat) (hapindex : Z) (thisrho : R)
  (probs : list R) (st : state) : result state :=
  let haps := hapindices st ++ [hapindex] in
  if negb (length probs =? npanel)%nat then Raise (SystemExit msg_panels)
  else
    match length (panelprobschrom st) with
    | O => Raise IndexError
    | S i =>
        ppc <- Py.append_at (panelprobschrom st) i probs ;;
        rvc <- Py.append_at (rhovalschrom st) i thisrho ;;
        Ok (mkState (panelprobs st) (rhovals st) ppc rvc (oldlocindex st)
                    haps (oldhapindices st) (oldchrom st))
    end.

(** One iteration of the loop of line 39. *)
Definition step (npanel : nat) (st : state) (ln : line) : result state :=
  match ln with
  | Comment => Ok st
  | Rec locindex chrom hapindex thisrho probs =>
      st' <- on_location locindex (on_chrom chrom st) ;;
      on_record npanel hapindex thisrho probs st'
  end.

Fixpoint loop (npanel : nat) (st : state) (body : list line) : result state :=
  match body with
  | [] => Ok st
  | ln :: rest => st' <- step npanel st ln ;; loop npanel st' rest
  end.

(** What the rest of the script reads after the loop (lines 67-69, 73). *)
Record table : Type := mkTable {
  t_panelprobs : list (list (list R));
  t_rhovals : list (list R);
  t_hapindices : list Z
}.

Definition nloc (t : table) : nat := length (t_panelprobs t).

Definition read (npanel : nat) (body : list line) : result table :=
  st <- loop npanel init body ;;
  Ok (mkTable (panelprobs st ++ panelprobschrom st)
              (rhovals st ++ rhovalschrom st)
              (hapindices st)).

(** The locations of a body in file order, each with the chromosome of the
    record that opens it and its haplotype indices.  A record opens a
    location exactly when its location index differs from that of the record
    before it (line 50: [oldlocindex] is the index of the last record, or
    [-1]); any other record adds its haplotype index to the open location. *)
Definition locations_step (acc : Z * list (string * list Z)) (ln : line)
  : Z * list (string * list Z) :=
  match ln with
  | Comment => acc
  | Rec locindex chrom hapindex _ _ =>
      if negb (locindex =? fst acc)%Z then
        (locindex, snd acc ++ [(chrom, [hapindex])])
      else
        match rev (snd acc) with
        | [] => acc
        | (c, haps) :: front => (locindex, rev front ++ [(c, haps ++ [hapindex])])
        end
  end.

Definition locations (body : list line) : list (string * list Z) :=
  snd (fold_left locations_step body ((-1)%Z, [])).

End Reader.

(** ** numpy operations used by the script *)

Module Np.

(** [np.array(rows)] for a list of float lists.  The calls that follow it in
    [cluster] need a two-dimensional array with at least one row and one
    column: an empty or ragged list, or rows without columns, raise
    [ValueError] ([np.array] on ragged rows, [np.delete] along a missing
    axis, [np.argmax] of an empty sequence). *)
Definition ncols (a : list (list R)) : nat := length (hd [] a).

Definition array2 (rows : list (list R)) : result (list (list R)) :=
  match rows with
  | [] => Raise ValueError
  | first :: _ =>
      if (length first =? 0)%nat then Raise ValueError
      else if forallb (fun row => (length row =? length first)%nat) rows
           then Ok rows else Raise ValueError
  end.

(** [np.sum(a, 0)]: the sum of every column. *)
Definition sum0 (a : list (list R)) : list R :=
  map (fun j => Py.fsum (map (fun row => nth j row 0) a)) (seq 0 (ncols a)).

(** [np.argmax(v)]: the first index of the largest entry. *)
Fixpoint argmax_from (best : nat) (bestv : R) (i : nat) (v : list R) : nat :=
  match v with
  | [] => best
  | x :: v' =>
      if Rlt_dec bestv x then argmax_from i x (S i) v'
      else argmax_from best bestv (S i) v'
  end.

Definition argmax (v : list R) : result nat :=
  match v with
  | [] => Raise ValueError
  | x :: v' => Ok (argmax_from 0 x 1 v')
  end.

(** [np.delete(a, j, 1)], row by row. *)
Definition delete_col (j : nat) (row : list R) : list R :=
  firstn j row ++ skipn (S j) row.

(** [np.insert(a, j, column, axis=1)], row by row: [j] beyond the row's
    length raises [IndexError]. *)
Definition insert_col (j : nat) (row : list R) (v : R) : result (list R) :=
  if (j <=? length row)%nat then Ok (firstn j row ++ v :: skipn j row)
  else Raise IndexError.

Definition insert1 (a : list (list R)) (j : nat) (column : list R)
  : result (list (list R)) :=
  mapM (fun p => insert_col j (fst p) (snd p)) (combine a column).

(** A numpy float that may be [nan]. *)
Inductive pyfloat : Type :=
| Fin (r : R)
| NaN.

Definition mean (v : list R) : R := Py.fsum v / INR (length v).

Definition center (v : list R) : list R := map (fun a => a - mean v) v.

Definition dot (x y : list R) : R :=
  Py.fsum (map (fun p => fst p * snd p) (combine x y)).

(** An entry of [np.cov] of two rows (normalisation by [n - 1]). *)
Definition cov (x y : list R) : R :=
  dot (center x) (center y) / (INR (length x) - 1).

Definition clip (lo hi x : R) : R := Rmin hi (Rmax lo x).

(** [np.corrcoef(x, y)[0][1]]: [c01 / sqrt(c00) / sqrt(c11)] clipped to
    [-1, 1].  Rows of different length cannot be stacked ([ValueError]);
    fewer than two samples, or a row of variance zero, give [0/0]: [nan]. *)
Definition corrcoef (x y : list R) : result pyfloat :=
  if negb (length x =? length y)%nat then Raise ValueError
  else if (length x <=? 1)%nat then Ok NaN
  else
    let c00 := cov x x in
    let c11 := cov y y in
    let c01 := cov x y in
    if Req_dec_T c00 0 then Ok NaN
    else if Req_dec_T c11 0 then Ok NaN
    else Ok (Fin (clip (-1) 1 (c01 / sqrt c00 / sqrt c11))).

(** Rounding to the nearest integer, ties to even. *)
Definition rint (x : R) : Z :=
  let f := Int_part x in
  let d := x - IZR f in
  if Rlt_dec d (1 / 2) then f
  else if Rlt_dec (1 / 2) d then (f + 1)%Z
  else if Z.even f then f else (f + 1)%Z.

(** [round(x, 3)] *)
Definition round3 (x : pyfloat) : pyfloat :=
  match x with
  | Fin r => Fin (IZR (rint (r * 1000)) / 1000)
  | NaN => NaN
  end.

(** [x > y] and [x < y] with a possibly-[nan] left operand: a comparison
    with [nan] is false. *)
Definition gtb (x : pyfloat) (y : R) : bool :=
  match x with
  | Fin r => if Rlt_dec y r then true else false
  | NaN => false
  end.

Definition ltb (x : pyfloat) (y : R) : bool :=
  match x with
  | Fin r => if Rlt_dec r y then true else false
  | NaN => false
  end.

End Np.

Fixpoint foldM {A B : Type} (f : A -> B -> result A) (l : list B) (a : A)
  : result A :=
  match l with
  | [] => Ok a
  | b :: l' => a' <- f a b ;; foldM f l' a'
  end.

(** ** The clusterer (lines 76-96) *)

Section Clusterer.

(** [GaussianMixture(nanc, init_params='k-means++', n_init=10)] fitted on the
    transformed vectors: [fit transformed nanc] stands for the pair
    ([myclust.means_], [myclust.predict(transformed)]), or for the exception
    scikit-learn raises. *)
Variable fit : list (list R) -> Z -> result (list (list R) * list Z).

Definition cluster (panelprobs : list (list (list R))) (nanc : Z)
  : result (list (list Z) * list (list R)) :=
  first <- Py.getitem panelprobs 0 ;;
  let nhaps := length first in
  clustinput <- Np.array2 (concat panelprobs) ;;
  let sums := Np.sum0 clustinput in
  whichdrop <- Np.argmax sums ;;
  let transformed := map (Np.delete_col whichdrop) clustinput in
  '(means_, labels) <- fit transformed nanc ;;
  starts <- Py.range_step (length labels) nhaps ;;
  let labelmatrix := map (fun i => Py.slice_len labels i nhaps) starts in
  let extra_column := map (fun x => 1 - Py.fsum x) means_ in
  param <- Np.insert1 means_ whichdrop extra_column ;;
  Ok (labelmatrix, param).

End Clusterer.

(** ** Switch rates (lines 100-112) *)

Definition msg_rho : string := "trouble in make_rho".

Definition make_rho (label_matrix : list (list Z)) (rho_matrix : list (list R))
  (nanc : Z) : result (list R) :=
  let labels := concat label_matrix in
  let rho_vec := concat rho_matrix in
  if negb (length labels =? length rho_vec)%nat then Raise (SystemExit msg_rho)
  else
    mapM (fun i =>
            let rhoi_vec :=
              map (fun index => nth index rho_vec 0)
                  (filter (fun index => (nth index labels (-1) =? i)%Z)
                          (seq 0 (length labels))) in
            if (length rhoi_vec =? 0)%nat then Raise ZeroDivisionError
            else Ok (Py.fsum rhoi_vec / INR (length rhoi_vec)))
         (Py.range nanc).

(** ** Lag correlations (lines 116-133) *)

(** The dictionary [acs]: keys [(i2, i1)] in insertion order. *)
Definition dict : Type := list ((Z * Z) * Np.pyfloat).

Definition key_eqb (k k' : Z * Z) : bool :=
  ((fst k =? fst k') && (snd k =? snd k'))%Z.

Fixpoint dict_set (d : dict) (k : Z * Z) (v : Np.pyfloat) : dict :=
  match d with
  | [] => [(k, v)]
  | (k', v') :: d' =>
      if key_eqb k k' then (k', v) :: d' else (k', v') :: dict_set d' k v
  end.

Inductive autoc_result : Type :=
| Degenerate (v : R)
| Diagnostics (acs : dict) (maxcrosscor minautocor : R).

(** [1*(v==i)] *)
Definition indicator (v i : Z) : Z := (1 * (if v =? i then 1 else 0))%Z.

(** [[1*(x[j]==i) for x in rows]] *)
Definition indicators (rows : list (list Z)) (j : nat) (i : Z)
  : result (list Z) :=
  mapM (fun x => v <- Py.getitem x j ;; Ok (indicator v i)) rows.

(** The location indices that lines 127-128 pair up: position [k] of
    [labelmatrix[:-lag]] with position [k] of [labelmatrix[lag:]]. *)
Definition lag_pairs (nloc : nat) (lag : Z) : list (nat * nat) :=
  combine (Py.slice_to (seq 0 nloc) (- lag)) (Py.slice_from (seq 0 nloc) lag).

(** Lines 124-128. *)
Definition vectors (labelmatrix : list (list Z)) (lag : Z) (nhaps : nat)
  (i1 i2 : Z) : result (list Z * list Z) :=
  foldM (fun vs j =>
           a <- indicators (Py.slice_to labelmatrix (- lag)) j i1 ;;
           b <- indicators (Py.slice_from labelmatrix lag) j i2 ;;
           Ok (fst vs ++ a, snd vs ++ b))
        (seq 0 nhaps) ([], []).

(** The unrounded coefficient of line 129. *)
Definition coefficient (labelmatrix : list (list Z)) (lag : Z) (nhaps : nat)
  (i1 i2 : Z) : result Np.pyfloat :=
  vs <- vectors labelmatrix lag nhaps i1 i2 ;;
  Np.corrcoef (map IZR (fst vs)) (map IZR (snd vs)).

(** Lines 124-132 for one pair [(i1, i2)]. *)
Definition autoc_pair (labelmatrix : list (list Z)) (lag : Z) (nhaps : nat)
  (st : dict * R * R) (i1 i2 : Z) : result (dict * R * R) :=
  let '(acs, maxcrosscor, minautocor) := st in
  ac <- coefficient labelmatrix lag nhaps i1 i2 ;;
  let acs := dict_set acs (i2, i1) (Np.round3 ac) in
  let maxcrosscor :=
    match ac with
    | Np.Fin r => if negb (i1 =? i2)%Z && Np.gtb ac maxcrosscor
                  then r else maxcrosscor
    | Np.NaN => maxcrosscor
    end in
  let minautocor :=
    match ac with
    | Np.Fin r => if (i1 =? i2)%Z && Np.ltb ac minautocor
                  then r else minautocor
    | Np.NaN => minautocor
    end in
  Ok (acs, maxcrosscor, minautocor).

Definition autoc (labelmatrix : list (list Z)) (nanc : Z) (lag : Z)
  : result autoc_result :=
  let acs : dict := [] in
  let maxcrosscor := -1 in
  let minautocor := 1 in
  if (Z.of_nat (length labelmatrix) <? lag + 2)%Z then Ok (Degenerate 0)
  else
    first <- Py.getitem labelmatrix 0 ;;
    let nhaps := length first in
    st <- foldM (fun st i1 =>
                   foldM (fun st i2 => autoc_pair labelmatrix lag nhaps st i1 i2)
                         (Py.range (i1 + 1)) st)
                (Py.range nanc) (acs, maxcrosscor, minautocor) ;;
    let '(acs, maxcrosscor, minautocor) := st in
    Ok (Diagnostics acs maxcrosscor minautocor).

(** ** The script as a whole (lines 15-186) *)

(** Lines 178-179. *)
Definition mylambda (nrefhaps : Z) : R := 1 / (ln (IZR nrefhaps) + 0.5).

Definition theta (nrefhaps : Z) : R :=
  mylambda nrefhaps / (2 * mylambda nrefhaps + 2 * IZR nrefhaps).

(** Lines 180-181: the rows written below the [theta[i][j]] comment. *)
Definition theta_rows (nanc : Z) (npanel : nat) (nrefhaps : Z)
  : list (list R) :=
  map (fun _ => repeat (theta nrefhaps) npanel) (Py.range nanc).

(** The sections of the model file, in the order they are written; numbers
    are kept as numbers ([anc_i] as [i]). *)
Record model_file : Type := mkModel {
  m_acs : dict;
  m_maxcrosscor : R;
  m_minautocor : R;
  m_ancestries : list Z;
  m_refpops : list string;
  m_T : Z;
  m_mu : list R;
  m_p : list (list R);
  m_theta : list (list R);
  m_rho : list R
}.

(** Line 143: [acs, maxcrosscor, minautocor = autoc(...)]; a float cannot be
    unpacked. *)
Definition unpack3 (r : autoc_result) : result (dict * R * R) :=
  match r with
  | Degenerate _ => Raise TypeError
  | Diagnostics acs maxcrosscor minautocor => Ok (acs, maxcrosscor, minautocor)
  end.

Section Script.

Variable fit : list (list R) -> Z -> result (list (list R) * list Z).

(** [main nanc nrefhaps refpops body]: the run of the script on ancestry
    count [nanc] and a panels file with header values [nrefhaps], [refpops]
    and body [body].  [Ok m]: the script ends normally and the model file is
    [m]; [Raise e]: the script stops with [e] and the model file is left
    incomplete. *)
Definition main (nanc : Z) (nrefhaps : Z) (refpops : list string)
  (body : list Reader.line) : result model_file :=
  let T := 10%Z in
  let npanel := length refpops in
  t <- Reader.read npanel body ;;
  '(thislabelmatrix, thisparams) <- cluster fit (Reader.t_panelprobs t) nanc ;;
  thisrho <- make_rho thislabelmatrix (Reader.t_rhovals t) nanc ;;
  let lag := 1%Z in
  r <- autoc thislabelmatrix nanc lag ;;
  '(acs, maxcrosscor, minautocor) <- unpack3 r ;;
  mu <- (if (nanc =? 0)%Z then Raise ZeroDivisionError
         else Ok (repeat (1 / IZR nanc) (Z.to_nat nanc))) ;;
  Ok (mkModel acs maxcrosscor minautocor (Py.range nanc) refpops T mu
              thisparams (theta_rows nanc npanel nrefhaps) thisrho).

End Script.

(** The fit of a mixture with a single component, in exact arithmetic:
    every responsibility is 1, so the fitted mean is the mean of the samples
    and every sample gets label 0.  Other component counts are not
    modelled. *)
Definition single_component_fit (transformed : list (list R)) (nanc : Z)
  : result (list (list R) * list Z) :=
  if negb (nanc =? 1)%Z then Raise ValueError
  else Ok ([map (fun s => s / INR (length transformed)) (Np.sum0 transformed)],
           map (fun _ => 0%Z) transformed).

(** * Definitions used by the statements *)

(** One location, two haplotypes, three panels; the vectors do not sum to 1
    (the reader does not check or normalise them). *)
Definition unnormalised_table : list (list (list R)) :=
  [[[0.7; 0.6; 0.8]; [0.5; 0.8; 0.9]]].

(** One location, one haplotype, three panels, a vector that sums to 1. *)
Definition small_table : list (list (list R)) := [[[0.2; 0.5; 0.3]]].

(** Every entry of a matrix lies in [0, 1]. *)
Definition in_unit_interval (param : list (list R)) : Prop :=
  Forall (Forall (fun v => 0 <= v <= 1)) param.

(** A fit that returns the mean [0.2, 0.3] and the label 0, whatever it is
    given. *)
Definition fixed_fit (transformed : list (list R)) (nanc : Z)
  : result (list (list R) * list Z) :=
  Ok ([[0.2; 0.3]], [0%Z]).

(** The recombination values of the (location, haplotype) pairs labelled
    [i], from the two flattened tables zipped together. *)
Definition labelled_values (labels : list Z) (rho_vec : list R) (i : Z)
  : list R :=
  map snd (filter (fun p => (fst p =? i)%Z) (combine labels rho_vec)).

(** Their arithmetic mean: the sum over the number of pairs labelled [i]. *)
Definition labelled_mean (labels : list Z) (rho_vec : list R) (i : Z) : R :=
  Py.fsum (labelled_values labels rho_vec i)
  / INR (count_occ Z.eq_dec labels i).

(** The indicator of component [i] down haplotype [j] of some rows, and
    the concatenation of these columns over haplotypes [js]. *)
Definition column (rows : list (list Z)) (j : nat) (i : Z) : list Z :=
  map (fun x => indicator (nth j x 0%Z) i) rows.

Definition columns (rows : list (list Z)) (js : list nat) (i : Z) : list Z :=
  flat_map (fun j => column rows j i) js.

(** The pairs [(i1, i2)] in the order lines 122-123 visit them. *)
Definition pairs (nanc : Z) : list (Z * Z) :=
  flat_map (fun i1 => map (fun i2 => (i1, i2)) (Py.range (i1 + 1)))
           (Py.range nanc).

(** Six locations, one haplotype: ancestry 0 on the first three locations,
    ancestry 1 on the last three. *)
Definition two_blocks : list (list Z) := [[0]; [0]; [0]; [1]; [1]; [1]]%Z.

(** The chromosome of the [t]-th location of a body. *)
Definition chrom_of (body : list Reader.line) (t : nat) : option string :=
  nth_error (map fst (Reader.locations body)) t.

(** "No pair of label rows that [autoc] correlates comes from two
    chromosomes", for the table read from one body. *)
Definition no_pair_spans_chromosomes (npanel : nat) (body : list Reader.line)
  (lag : Z) : Prop :=
  forall tbl t t',
    Reader.read npanel body = Ok tbl ->
    In (t, t') (lag_pairs (Reader.nloc tbl) lag) ->
    chrom_of body t = chrom_of body t'.

(** Two locations on [chr1], then one on [chr2]; one haplotype. *)
Definition two_chromosomes : list Reader.line :=
  [Reader.Rec 0 "chr1" 0 0.01 [0.9; 0.1];
   Reader.Rec 1 "chr1" 0 0.02 [0.8; 0.2];
   Reader.Rec 2 "chr2" 0 0.03 [0.3; 0.7]].

(** The number of location slots the reader has opened so far. *)
Definition slots (st : Reader.state) : nat :=
  (length (Reader.panelprobs st) + length (Reader.panelprobschrom st))%nat.

(** Two consecutive locations of the body list different haplotype index
    sequences. *)
Definition hap_mismatch (body : list Reader.line) : Prop :=
  exists t a b,
    nth_error (map snd (Reader.locations body)) t = Some a /\
    nth_error (map snd (Reader.locations body)) (S t) = Some b /\
    a <> b.

(** Haplotypes 0, 1 at the first location, haplotype 0 alone at the second
    and third. *)
Definition shorter_location : list Reader.line :=
  [Reader.Rec 0 "chr1" 0 0.01 [0.9; 0.1];
   Reader.Rec 0 "chr1" 1 0.01 [0.8; 0.2];
   Reader.Rec 1 "chr1" 0 0.02 [0.7; 0.3];
   Reader.Rec 2 "chr1" 0 0.03 [0.6; 0.4]].

(** Haplotypes 0, 1 at the first location, 2, 3 at the second and last. *)
Definition last_location_differs : list Reader.line :=
  [Reader.Rec 0 "chr1" 0 0.01 [0.9; 0.1];
   Reader.Rec 0 "chr1" 1 0.01 [0.8; 0.2];
   Reader.Rec 1 "chr1" 2 0.02 [0.7; 0.3];
   Reader.Rec 1 "chr1" 3 0.02 [0.6; 0.4]].

(** Haplotypes 0, 1 at the first location, 0, 2 at the second, 0, 2 at the
    third: the check of line 55 runs when the third location opens. *)
Definition middle_location_differs : list Reader.line :=
  [Reader.Rec 0 "chr1" 0 0.01 [0.9; 0.1];
   Reader.Rec 0 "chr1" 1 0.01 [0.8; 0.2];
   Reader.Rec 1 "chr1" 0 0.02 [0.7; 0.3];
   Reader.Rec 1 "chr1" 2 0.02 [0.6; 0.4];
   Reader.Rec 2 "chr1" 0 0.03 [0.7; 0.3];
   Reader.Rec 2 "chr1" 2 0.03 [0.6; 0.4]].

(** Two locations, one haplotype, two panels. *)
Definition two_locations : list Reader.line :=
  [Reader.Rec 0 "chr1" 0 0.01 [0.6; 0.4];
   Reader.Rec 1 "chr1" 0 0.02 [0.3; 0.7]].

(** ** Definitions used by the further properties *)

Definition is_comment (ln : Reader.line) : bool :=
  match ln with
  | Reader.Comment => true
  | Reader.Rec _ _ _ _ _ => false
  end.

(** The records of a body, comment lines left out. *)
Definition records (body : list Reader.line) : list Reader.line :=
  filter (fun ln => negb (is_comment ln)) body.

(** A location of the table lists at least one haplotype, and every vector
    in it has [npanel] entries. *)
Definition location_ok (npanel : nat) (location : list (list R)) : Prop :=
  location <> [] /\ Forall (fun probs => length probs = npanel) location.

(** What the reader's loop keeps true of its lists: the recombination lists
    have the shape of the probability lists, and every location is
    well-formed. *)
Definition reader_inv (npanel : nat) (st : Reader.state) : Prop :=
  map (@length _) (Reader.panelprobs st) = map (@length _) (Reader.rhovals st)
  /\ map (@length _) (Reader.panelprobschrom st)
     = map (@length _) (Reader.rhovalschrom st)
  /\ Forall (location_ok npanel)
            (Reader.panelprobs st ++ Reader.panelprobschrom st).

(** Each list of haplotype indices passes the test of line 55 against the
    list before it. *)
Fixpoint pairwise_agree (haps : list (list Z)) : Prop :=
  match haps with
  | a :: rest =>
      match rest with
      | b :: _ => Py.any_differ b a = false
      | [] => True
      end /\ pairwise_agree rest
  | [] => True
  end.

(** The haplotype lists of the reader against the locations of the body. *)
Definition haps_inv (st : Reader.state) (acc : Z * list (string * list Z))
  : Prop :=
  (snd acc = [] /\ Reader.hapindices st = [])
  \/ exists front c lastloc,
       snd acc = front ++ [(c, lastloc)] /\
       Reader.hapindices st = lastloc /\
       Reader.oldhapindices st = Some (last (map snd front) []) /\
       pairwise_agree (map snd front).

(** The list comprehension of line 91 on a list [l] and a row length [h]. *)
Definition chunks {A : Type} (h : nat) (l : list A) : list (list A) :=
  map (fun i => Py.slice_len l i h)
      (map (fun k => (k * h)%nat) (seq 0 ((length l + h - 1) / h))).

(** The row sizes of the reader's lists against the locations of the body. *)
Definition rows_inv (st : Reader.state) (acc : Z * list (string * list Z))
  : Prop :=
  map (@length _) (Reader.panelprobs st ++ Reader.panelprobschrom st)
  = map (fun l => length (snd l)) (snd acc).

(** The probability vector and the recombination value a line contributes
    to the table: none for a comment. *)
Definition line_probs (ln : Reader.line) : list (list R) :=
  match ln with
  | Reader.Comment => []
  | Reader.Rec _ _ _ _ probs => [probs]
  end.

Definition line_rho (ln : Reader.line) : list R :=
  match ln with
  | Reader.Comment => []
  | Reader.Rec _ _ _ thisrho _ => [thisrho]
  end.

(** * Properties *)

(** ** Sums and the error monad *)

Lemma fold_left_Rplus_acc (l : list R) (a : R) :
  fold_left Rplus l a = a + Py.fsum l.
Proof.
  unfold Py.fsum. revert a.
  induction l as [|x l IH]; intros a; simpl.
  - lra.
  - rewrite (IH (a + x)), (IH (0 + x)). lra.
Qed.

Lemma fsum_nil : Py.fsum [] = 0.
Proof. reflexivity. Qed.

Lemma fsum_cons (x : R) (l : list R) : Py.fsum (x :: l) = x + Py.fsum l.
Proof.
  unfold Py.fsum at 1. simpl. rewrite fold_left_Rplus_acc. lra.
Qed.

Lemma fsum_app (l1 l2 : list R) :
  Py.fsum (l1 ++ l2) = Py.fsum l1 + Py.fsum l2.
Proof.
  induction l1 as [|x l1 IH]; simpl.
  - rewrite fsum_nil. lra.
  - rewrite !fsum_cons, IH. lra.
Qed.

Lemma fsum_nonneg (l : list R) :
  Forall (fun v => 0 <= v) l -> 0 <= Py.fsum l.
Proof.
  induction 1 as [|x l Hx _ IH].
  - rewrite fsum_nil. lra.
  - rewrite fsum_cons. lra.
Qed.

Lemma fsum_entry_le (l : list R) (v : R) :
  Forall (fun v => 0 <= v) l -> In v l -> v <= Py.fsum l.
Proof.
  induction 1 as [|x l Hx Hl IH]; intros Hin.
  - destruct Hin.
  - rewrite fsum_cons. pose proof (fsum_nonneg l Hl). destruct Hin as [->|Hin].
    + lra.
    + specialize (IH Hin). lra.
Qed.

Lemma bind_Ok {A B : Type} (m : result A) (k : A -> result B) (b : B) :
  bind m k = Ok b -> exists a, m = Ok a /\ k a = Ok b.
Proof.
  destruct m as [a|e]; simpl; intros H.
  - exists a. split; [reflexivity | exact H].
  - discriminate H.
Qed.

Ltac bind_inv H :=
  let a := fresh "a" in
  let Ha := fresh "Hrun" in
  apply bind_Ok in H; destruct H as (a & Ha & H).

Lemma mapM_Ok_Forall2 {A B : Type} (f : A -> result B) (l : list A)
  (bs : list B) :
  mapM f l = Ok bs -> Forall2 (fun a b => f a = Ok b) l bs.
Proof.
  revert bs. induction l as [|a l IH]; intros bs H; simpl in H.
  - injection H as <-. constructor.
  - bind_inv H. bind_inv H. injection H as <-.
    constructor; [assumption | apply IH; assumption].
Qed.

Lemma mapM_total {A B : Type} (f : A -> result B) (g : A -> B) (l : list A) :
  Forall (fun a => f a = Ok (g a)) l -> mapM f l = Ok (map g l).
Proof.
  induction 1 as [|a l Ha _ IH]; simpl.
  - reflexivity.
  - rewrite Ha. simpl. rewrite IH. reflexivity.
Qed.

(** ** The clusterer *)

Lemma firstn_skipn_fsum (j : nat) (row : list R) :
  Py.fsum (firstn j row) + Py.fsum (skipn j row) = Py.fsum row.
Proof.
  rewrite <- fsum_app, firstn_skipn. reflexivity.
Qed.

(** The row that [np.insert] builds sums to the old row plus the new entry. *)
Lemma insert_col_sum (j : nat) (row : list R) (v : R) (row' : list R) :
  Np.insert_col j row v = Ok row' -> Py.fsum row' = Py.fsum row + v.
Proof.
  unfold Np.insert_col. destruct (j <=? length row)%nat; intros H.
  - injection H as <-. rewrite fsum_app, fsum_cons.
    pose proof (firstn_skipn_fsum j row). lra.
  - discriminate H.
Qed.

Lemma insert_col_In (j : nat) (row : list R) (v : R) (row' : list R) (e : R) :
  Np.insert_col j row v = Ok row' -> In e row' -> e = v \/ In e row.
Proof.
  unfold Np.insert_col. destruct (j <=? length row)%nat; intros H Hin.
  - injection H as <-. apply in_app_or in Hin.
    destruct Hin as [Hin|[->|Hin]].
    + right. rewrite <- (firstn_skipn j row). apply in_or_app. now left.
    + now left.
    + right. rewrite <- (firstn_skipn j row). apply in_or_app. now right.
  - discriminate H.
Qed.

(** Every row of the matrix [cluster] returns is a fitted mean with
    [1 - sum(mean)] inserted. *)
Lemma insert1_rows (means_ : list (list R)) (j : nat) (param : list (list R)) :
  Np.insert1 means_ j (map (fun x => 1 - Py.fsum x) means_) = Ok param ->
  Forall2 (fun x row => Np.insert_col j x (1 - Py.fsum x) = Ok row)
          means_ param.
Proof.
  unfold Np.insert1. revert param.
  induction means_ as [|x means_ IH]; intros param H; simpl in H.
  - injection H as <-. constructor.
  - bind_inv H. bind_inv H. injection H as <-.
    constructor; [assumption | apply IH; assumption].
Qed.

Lemma cluster_param (fit : list (list R) -> Z -> result (list (list R) * list Z))
  (panelprobs : list (list (list R))) (nanc : Z)
  (labelmatrix : list (list Z)) (param : list (list R)) :
  cluster fit panelprobs nanc = Ok (labelmatrix, param) ->
  exists transformed means_ labels whichdrop,
    fit transformed nanc = Ok (means_, labels) /\
    Forall2 (fun x row => Np.insert_col whichdrop x (1 - Py.fsum x) = Ok row)
            means_ param.
Proof.
  unfold cluster. intros H.
  bind_inv H. bind_inv H. bind_inv H. bind_inv H.
  destruct a2 as [means_ labels].
  bind_inv H. bind_inv H. injection H as _ <-.
  eexists _, means_, labels, a1. split; [eassumption|].
  apply insert1_rows. assumption.
Qed.

Lemma argmax_from_bound (v : list R) (best : nat) (bestv : R) (i : nat) :
  (best < i)%nat -> (Np.argmax_from best bestv i v < i + length v)%nat.
Proof.
  revert best bestv i.
  induction v as [|x v IH]; intros best bestv i Hlt; simpl.
  - lia.
  - destruct (Rlt_dec bestv x).
    + specialize (IH i x (S i)). lia.
    + specialize (IH best bestv (S i)). lia.
Qed.

Lemma argmax_bound (v : list R) (j : nat) :
  Np.argmax v = Ok j -> (j < length v)%nat.
Proof.
  destruct v as [|x v]; simpl; intros H.
  - discriminate H.
  - injection H as <-. pose proof (argmax_from_bound v 0 x 1). lia.
Qed.

Lemma insert1_total (means_ : list (list R)) (j : nat) (column : list R) :
  Forall (fun x => (j <= length x)%nat) means_ ->
  exists param, Np.insert1 means_ j column = Ok param.
Proof.
  unfold Np.insert1. intros Hall. revert column.
  induction Hall as [|x means_ Hx _ IH]; intros column.
  - exists []. reflexivity.
  - destruct column as [|v column].
    + exists []. reflexivity.
    + destruct (IH column) as [param Hparam].
      cbn [combine mapM fst snd]. rewrite Hparam.
      unfold Np.insert_col. apply Nat.leb_le in Hx. rewrite Hx.
      eexists. reflexivity.
Qed.

(** The clusterer returns on every rectangular table with at least one
    location, one haplotype and one panel, when the fit returns one mean per
    component with one entry per kept panel. *)
Lemma cluster_runs (fit : list (list R) -> Z -> result (list (list R) * list Z))
  (first : list (list R)) (rest : list (list (list R))) (nanc : Z)
  (npanel : nat) :
  first <> [] ->
  Forall (fun v => length v = S npanel) (concat (first :: rest)) ->
  (forall transformed, exists means_ labels,
      fit transformed nanc = Ok (means_, labels) /\
      Forall (fun x => length x = npanel) means_) ->
  exists labelmatrix param,
    cluster fit (first :: rest) nanc = Ok (labelmatrix, param).
Proof.
  intros Hfirst Hrect Hfit. unfold cluster.
  change (Py.getitem (first :: rest) 0) with (Ok first). cbn [bind].
  destruct first as [|v0 first]; [congruence|]. clear Hfirst.
  remember (concat ((v0 :: first) :: rest)) as rows eqn:Hrows.
  assert (Harr : Np.array2 rows = Ok rows).
  { rewrite Hrows in *. simpl in *. inversion Hrect as [|? ? Hv0 Hrest]; subst.
    rewrite Hv0. simpl. rewrite Nat.eqb_refl. simpl.
    replace (forallb _ _) with true; [reflexivity|].
    symmetry. apply forallb_forall. intros row Hin.
    rewrite Forall_forall in Hrest. rewrite (Hrest row Hin).
    apply Nat.eqb_refl. }
  rewrite Harr. cbn [bind].
  assert (Hlen : length (Np.sum0 rows) = S npanel).
  { unfold Np.sum0. rewrite length_map, length_seq. unfold Np.ncols.
    rewrite Hrows in *. simpl in *. inversion Hrect; subst. assumption. }
  destruct (Np.argmax (Np.sum0 rows)) as [whichdrop|e] eqn:Harg.
  2:{ destruct (Np.sum0 rows); [discriminate Hlen | discriminate Harg]. }
  apply argmax_bound in Harg. cbn [bind].
  destruct (Hfit (map (Np.delete_col whichdrop) rows))
    as (means_ & labels & -> & Hmeans).
  simpl.
  destruct (insert1_total means_ whichdrop (map (fun x => 1 - Py.fsum x) means_))
    as [param ->].
  { eapply Forall_impl; [|exact Hmeans]. simpl. intros x Hx. lia. }
  simpl. eexists _, _. reflexivity.
Qed.

Lemma array2_Ok (rows a : list (list R)) : Np.array2 rows = Ok a -> a = rows.
Proof.
  unfold Np.array2. destruct rows as [|first rows]; [discriminate|].
  destruct (length first =? 0)%nat; [discriminate|].
  destruct (forallb _ _); [|discriminate]. intros [= <-]. reflexivity.
Qed.

Lemma concat_length_uniform {A : Type} (l : list (list A)) (n : nat) :
  Forall (fun x => length x = n) l ->
  length (concat l) = (length l * n)%nat.
Proof.
  induction 1 as [|x l Hx _ IH]; simpl.
  - reflexivity.
  - rewrite length_app, IH, Hx. reflexivity.
Qed.

(** When every location lists as many haplotypes as the first one and the
    fit predicts one label per vector, the label matrix has one row per
    location. *)
Lemma cluster_one_row_per_location
  (fit : list (list R) -> Z -> result (list (list R) * list Z))
  (panelprobs : list (list (list R))) (nanc : Z)
  (labelmatrix : list (list Z)) (param : list (list R)) :
  cluster fit panelprobs nanc = Ok (labelmatrix, param) ->
  Forall (fun location => length location = length (hd [] panelprobs))
         panelprobs ->
  (forall transformed means_ labels,
      fit transformed nanc = Ok (means_, labels) ->
      length labels = length transformed) ->
  length labelmatrix = length panelprobs.
Proof.
  unfold cluster. intros H Hrect Hfit.
  bind_inv H. bind_inv H. bind_inv H. bind_inv H.
  destruct a2 as [means_ labels].
  bind_inv H. bind_inv H. injection H as <- _.
  destruct panelprobs as [|first rest]; [discriminate Hrun|].
  injection Hrun as <-. apply array2_Ok in Hrun0. subst a0.
  apply Hfit in Hrun2. rewrite length_map in Hrun2.
  rewrite (concat_length_uniform _ _ Hrect) in Hrun2. cbn [hd] in Hrun2.
  unfold Py.range_step in Hrun3.
  destruct (length first) as [|h] eqn:Hh; [discriminate Hrun3|].
  injection Hrun3 as <-. rewrite !length_map, length_seq, Hrun2.
  replace (length (first :: rest) * S h + S h - 1)%nat
    with (length (first :: rest) * S h + h)%nat by lia.
  change (fst (Nat.divmod (length (first :: rest) * S h + h) h 0 h))
    with ((length (first :: rest) * S h + h) / S h)%nat.
  rewrite Nat.div_add_l by lia. rewrite Nat.div_small by lia. lia.
Qed.

(** ** Concrete runs of the clusterer *)

Ltac decide_Rlt :=
  repeat match goal with
    | |- context [Rlt_dec ?a ?b] =>
        destruct (Rlt_dec a b); [try (exfalso; lra) | try (exfalso; lra)]
    end.

Lemma cluster_unnormalised_table :
  cluster single_component_fit unnormalised_table 1 =
  Ok ([[0; 0]%Z],
      [[(0 + 0.7 + 0.5) / INR 2; (0 + 0.6 + 0.8) / INR 2;
        1 - Py.fsum [(0 + 0.7 + 0.5) / INR 2; (0 + 0.6 + 0.8) / INR 2]]]).
Proof.
  unfold cluster, unnormalised_table. simpl Py.getitem. simpl bind.
  simpl concat. unfold Np.array2. simpl. unfold Py.fsum. simpl.
  decide_Rlt. reflexivity.
Qed.

Lemma cluster_small_table :
  cluster single_component_fit small_table 1 =
  Ok ([[0%Z]],
      [[(0 + 0.2) / INR 1;
        1 - Py.fsum [(0 + 0.2) / INR 1; (0 + 0.3) / INR 1];
        (0 + 0.3) / INR 1]]).
Proof.
  unfold cluster, small_table. simpl Py.getitem. simpl bind.
  simpl concat. unfold Np.array2. simpl. unfold Py.fsum. simpl.
  decide_Rlt. reflexivity.
Qed.

(** C5, refuted as stated.  On [unnormalised_table] with one component the
    fitted mean is [0.6, 0.7]; the entry put back at the dropped column is
    [1 - 1.3 = -0.3], outside [0, 1]. *)
Lemma cluster_entry_outside_unit_interval :
  exists labelmatrix param,
    cluster single_component_fit unnormalised_table 1 = Ok (labelmatrix, param)
    /\ nth 2 (nth 0 param []) 0 = -0.3
    /\ ~ in_unit_interval param.
Proof.
  eexists _, _. split; [exact cluster_unnormalised_table|].
  split.
  - simpl. unfold Py.fsum. simpl. lra.
  - intros H. inversion H as [|row rows Hrow _]; subst.
    inversion Hrow as [|? ? _ Hrow1]; subst.
    inversion Hrow1 as [|? ? _ Hrow2]; subst.
    inversion Hrow2 as [|? ? Hv _]; subst.
    unfold Py.fsum in Hv. simpl in Hv. lra.
Qed.

(** C5, amended.  When every fitted mean has non-negative entries that sum
    to at most 1, every entry of the matrix [cluster] returns lies in
    [0, 1]. *)
Theorem cluster_entries_in_unit_interval
  (fit : list (list R) -> Z -> result (list (list R) * list Z))
  (panelprobs : list (list (list R))) (nanc : Z)
  (labelmatrix : list (list Z)) (param : list (list R)) :
  cluster fit panelprobs nanc = Ok (labelmatrix, param) ->
  (forall transformed means_ labels,
      fit transformed nanc = Ok (means_, labels) ->
      Forall (fun x => Forall (fun v => 0 <= v) x /\ Py.fsum x <= 1) means_) ->
  in_unit_interval param.
Proof.
  intros H Hfit. apply cluster_param in H.
  destruct H as (transformed & means_ & labels & whichdrop & Hrun & Hrows).
  specialize (Hfit _ _ _ Hrun). clear Hrun. unfold in_unit_interval.
  induction Hrows as [|x row means_ param Hrow _ IH].
  - constructor.
  - inversion Hfit as [|? ? [Hpos Hsum] Hrest]; subst.
    constructor; [|apply IH; assumption].
    apply Forall_forall. intros e He.
    pose proof (fsum_nonneg x Hpos) as Hnn.
    destruct (insert_col_In _ _ _ _ _ Hrow He) as [->|Hin].
    + lra.
    + pose proof (fsum_entry_le x e Hpos Hin).
      rewrite Forall_forall in Hpos. specialize (Hpos e Hin). lra.
Qed.

Lemma cluster_fixed_fit :
  cluster fixed_fit small_table 1 =
  Ok ([[0%Z]], [[0.2; 1 - Py.fsum [0.2; 0.3]; 0.3]]).
Proof.
  unfold cluster, small_table. simpl Py.getitem. simpl bind.
  simpl concat. unfold Np.array2. simpl. unfold Py.fsum. simpl.
  decide_Rlt. reflexivity.
Qed.

Lemma cluster_entries_in_unit_interval_witness :
  in_unit_interval [[0.2; 1 - Py.fsum [0.2; 0.3]; 0.3]].
Proof.
  apply (cluster_entries_in_unit_interval fixed_fit small_table 1 [[0%Z]]).
  - exact cluster_fixed_fit.
  - intros transformed means_ labels H. unfold fixed_fit in H.
    injection H as <- _. constructor; [|constructor].
    split.
    + repeat constructor; lra.
    + unfold Py.fsum. simpl. lra.
Defined.

(** ** Switch rates *)

(** The index loop of line 109 selects the zipped values. *)
Lemma index_loop_labelled (labels : list Z) (rho_vec : list R) (i : Z) :
  length labels = length rho_vec ->
  map (fun index => nth index rho_vec 0)
      (filter (fun index => (nth index labels (-1) =? i)%Z)
              (seq 0 (length labels)))
  = labelled_values labels rho_vec i.
Proof.
  unfold labelled_values. revert rho_vec.
  induction labels as [|l labels IH]; intros rho_vec Hlen.
  - reflexivity.
  - destruct rho_vec as [|r rho_vec]; [discriminate Hlen|].
    injection Hlen as Hlen. specialize (IH rho_vec Hlen).
    cbn [length seq filter combine fst snd nth].
    rewrite <- seq_shift, filter_map_swap.
    destruct (l =? i)%Z; cbn [map snd nth]; rewrite map_map; cbn [nth];
      rewrite IH; reflexivity.
Qed.

Lemma labelled_values_length (labels : list Z) (rho_vec : list R) (i : Z) :
  length labels = length rho_vec ->
  length (labelled_values labels rho_vec i) = count_occ Z.eq_dec labels i.
Proof.
  unfold labelled_values. revert rho_vec.
  induction labels as [|l labels IH]; intros rho_vec Hlen.
  - reflexivity.
  - destruct rho_vec as [|r rho_vec]; [discriminate Hlen|].
    injection Hlen as Hlen. specialize (IH rho_vec Hlen).
    cbn [combine filter fst count_occ].
    destruct (Z.eqb_spec l i) as [->|Hne].
    + destruct (Z.eq_dec i i); [|congruence]. cbn [map length].
      rewrite IH. reflexivity.
    + destruct (Z.eq_dec l i); [congruence|]. exact IH.
Qed.

Lemma range_In (n i : Z) : In i (Py.range n) <-> (0 <= i < n)%Z.
Proof.
  unfold Py.range. rewrite in_map_iff. split.
  - intros (k & <- & Hk). apply in_seq in Hk. lia.
  - intros Hi. exists (Z.to_nat i). split; [lia|]. apply in_seq. lia.
Qed.

(** C6.  On tables of equal flattened length in which every component
    [0 <= i < nanc] labels at least one pair, [make_rho] returns for each
    component the arithmetic mean of the recombination values of the pairs
    it labels; on labels [0,0 / 1,1] with values [0.1,0.1 / 0.3,0.5] it
    returns [0.1, 0.4]. *)
Theorem make_rho_is_labelled_mean :
  (forall (label_matrix : list (list Z)) (rho_matrix : list (list R))
          (nanc : Z),
      length (concat label_matrix) = length (concat rho_matrix) ->
      (forall i, (0 <= i < nanc)%Z -> In i (concat label_matrix)) ->
      make_rho label_matrix rho_matrix nanc =
      Ok (map (labelled_mean (concat label_matrix) (concat rho_matrix))
              (Py.range nanc)))
  /\ make_rho [[0; 0]; [1; 1]]%Z [[0.1; 0.1]; [0.3; 0.5]] 2 = Ok [0.1; 0.4].
Proof.
  assert (Hgen : forall label_matrix rho_matrix nanc,
      length (concat label_matrix) = length (concat rho_matrix) ->
      (forall i, (0 <= i < nanc)%Z -> In i (concat label_matrix)) ->
      make_rho label_matrix rho_matrix nanc =
      Ok (map (labelled_mean (concat label_matrix) (concat rho_matrix))
              (Py.range nanc))).
  { intros label_matrix rho_matrix nanc Hlen Hall. unfold make_rho.
    rewrite Hlen, Nat.eqb_refl. cbn [negb]. apply mapM_total.
    apply Forall_forall. intros i Hi. apply range_In in Hi.
    rewrite <- Hlen, (index_loop_labelled _ _ i Hlen).
    pose proof (labelled_values_length _ _ i Hlen) as Hcount.
    pose proof (proj1 (count_occ_In Z.eq_dec _ _) (Hall i Hi)) as Hpos.
    destruct (Nat.eqb_spec (length (labelled_values (concat label_matrix)
                                      (concat rho_matrix) i)) 0) as [H0|_].
    - lia.
    - unfold labelled_mean. rewrite Hcount. reflexivity. }
  split; [exact Hgen|].
  rewrite Hgen.
  - unfold labelled_mean, labelled_values, Py.fsum. simpl.
    repeat f_equal; lra.
  - reflexivity.
  - intros i Hi. simpl. assert (i = 0 \/ i = 1)%Z as [->| ->] by lia; auto.
Qed.

Lemma make_rho_is_labelled_mean_witness :
  make_rho [[0; 1]; [1; 0]]%Z [[0.2; 0.4]; [0.6; 0.8]] 2 =
  Ok (map (labelled_mean [0; 1; 1; 0]%Z [0.2; 0.4; 0.6; 0.8]) (Py.range 2)).
Proof.
  apply (proj1 make_rho_is_labelled_mean
           [[0; 1]; [1; 0]]%Z [[0.2; 0.4]; [0.6; 0.8]] 2%Z).
  - reflexivity.
  - intros i Hi. simpl. assert (i = 0 \/ i = 1)%Z as [->| ->] by lia; auto.
Defined.

(** ** Lag correlations *)

Lemma getitem_Ok {A : Type} (l : list A) (j : nat) (a d : A) :
  Py.getitem l j = Ok a -> nth j l d = a /\ (j < length l)%nat.
Proof.
  unfold Py.getitem. destruct (nth_error l j) as [a'|] eqn:Hnth; intros H.
  - injection H as <-. split.
    + apply nth_error_nth. assumption.
    + apply nth_error_Some. congruence.
  - discriminate H.
Qed.

Lemma getitem_total {A : Type} (l : list A) (j : nat) (d : A) :
  (j < length l)%nat -> Py.getitem l j = Ok (nth j l d).
Proof.
  intros Hj. unfold Py.getitem.
  rewrite (nth_error_nth' l d Hj). reflexivity.
Qed.

Lemma indicators_Ok (rows : list (list Z)) (j : nat) (i : Z) (v : list Z) :
  indicators rows j i = Ok v -> v = column rows j i.
Proof.
  unfold indicators, column. revert v.
  induction rows as [|x rows IH]; intros v H; simpl in H.
  - injection H as <-. reflexivity.
  - bind_inv H. bind_inv H. injection H as <-.
    bind_inv Hrun. injection Hrun as <-.
    apply (getitem_Ok _ _ _ 0%Z) in Hrun1. destruct Hrun1 as [<- _].
    simpl. f_equal. apply IH. assumption.
Qed.

Lemma indicators_total (rows : list (list Z)) (j : nat) (i : Z) :
  Forall (fun x => (j < length x)%nat) rows ->
  indicators rows j i = Ok (column rows j i).
Proof.
  intros Hall. unfold indicators, column. apply mapM_total.
  eapply Forall_impl; [|exact Hall]. simpl. intros x Hx.
  rewrite (getitem_total x j 0%Z Hx). reflexivity.
Qed.

Lemma vectors_loop_Ok (A B : list (list Z)) (i1 i2 : Z) (js : list nat)
  (acc vs : list Z * list Z) :
  foldM (fun vs j =>
           a <- indicators A j i1 ;;
           b <- indicators B j i2 ;;
           Ok (fst vs ++ a, snd vs ++ b)) js acc = Ok vs ->
  vs = (fst acc ++ columns A js i1, snd acc ++ columns B js i2).
Proof.
  revert acc. induction js as [|j js IH]; intros acc H; simpl in H.
  - injection H as <-. unfold columns. simpl. rewrite !app_nil_r.
    destruct acc; reflexivity.
  - bind_inv H. bind_inv Hrun. bind_inv Hrun. injection Hrun as <-.
    apply indicators_Ok in Hrun0, Hrun1. subst.
    apply IH in H. rewrite H. unfold columns. simpl.
    rewrite <- !app_assoc. reflexivity.
Qed.

Lemma vectors_loop_total (A B : list (list Z)) (i1 i2 : Z) (js : list nat)
  (acc : list Z * list Z) :
  Forall (fun j => Forall (fun x => (j < length x)%nat) A) js ->
  Forall (fun j => Forall (fun x => (j < length x)%nat) B) js ->
  foldM (fun vs j =>
           a <- indicators A j i1 ;;
           b <- indicators B j i2 ;;
           Ok (fst vs ++ a, snd vs ++ b)) js acc
  = Ok (fst acc ++ columns A js i1, snd acc ++ columns B js i2).
Proof.
  revert acc. induction js as [|j js IH]; intros acc HA HB; simpl.
  - unfold columns. simpl. rewrite !app_nil_r. destruct acc; reflexivity.
  - inversion HA as [|? ? HAj HA']; inversion HB as [|? ? HBj HB']; subst.
    rewrite (indicators_total A j i1 HAj), (indicators_total B j i2 HBj).
    simpl. rewrite (IH _ HA' HB'). unfold columns. simpl.
    rewrite <- !app_assoc. reflexivity.
Qed.

Lemma vectors_Ok (labelmatrix : list (list Z)) (lag : Z) (nhaps : nat)
  (i1 i2 : Z) (vs : list Z * list Z) :
  vectors labelmatrix lag nhaps i1 i2 = Ok vs ->
  vs = (columns (Py.slice_to labelmatrix (- lag)) (seq 0 nhaps) i1,
        columns (Py.slice_from labelmatrix lag) (seq 0 nhaps) i2).
Proof.
  unfold vectors. intros H. apply vectors_loop_Ok in H. exact H.
Qed.

Lemma columns_length (rows : list (list Z)) (js : list nat) (i : Z) :
  length (columns rows js i) = (length js * length rows)%nat.
Proof.
  unfold columns, column. induction js as [|j js IH]; simpl.
  - reflexivity.
  - rewrite length_app, length_map, IH. reflexivity.
Qed.

Lemma In_firstn_In {A : Type} (n : nat) (l : list A) (x : A) :
  In x (firstn n l) -> In x l.
Proof.
  intros H. rewrite <- (firstn_skipn n l). apply in_or_app. now left.
Qed.

Lemma In_skipn_In {A : Type} (n : nat) (l : list A) (x : A) :
  In x (skipn n l) -> In x l.
Proof.
  intros H. rewrite <- (firstn_skipn n l). apply in_or_app. now right.
Qed.

(** Slices for a lag of at least 1. *)
Lemma slice_to_neg {A : Type} (l : list A) (lag : Z) :
  (1 <= lag)%Z ->
  Py.slice_to l (- lag) = firstn (length l - Z.to_nat lag) l.
Proof.
  intros Hlag. unfold Py.slice_to, Py.slice_bound.
  destruct (Z.ltb_spec (- lag) 0); [|lia]. f_equal. lia.
Qed.

Lemma slice_from_pos {A : Type} (l : list A) (lag : Z) :
  (1 <= lag)%Z ->
  Py.slice_from l lag = skipn (Z.to_nat lag) l.
Proof.
  intros Hlag. unfold Py.slice_from, Py.slice_bound.
  destruct (Z.ltb_spec lag 0); [lia|].
  destruct (Z.min_spec lag (Z.of_nat (length l))) as [[Hlt ->]|[Hge ->]].
  - reflexivity.
  - rewrite Nat2Z.id. rewrite !skipn_all2; [reflexivity|lia|lia].
Qed.

Lemma slices_same_length {A : Type} (l : list A) (lag : Z) :
  (1 <= lag)%Z ->
  length (Py.slice_to l (- lag)) = length (Py.slice_from l lag).
Proof.
  intros Hlag. rewrite slice_to_neg, slice_from_pos by assumption.
  rewrite length_firstn, length_skipn. lia.
Qed.

Lemma corrcoef_total (x y : list R) :
  length x = length y -> exists v, Np.corrcoef x y = Ok v.
Proof.
  intros Hlen. unfold Np.corrcoef. rewrite Hlen, Nat.eqb_refl. cbn [negb].
  destruct (length y <=? 1)%nat; [eexists; reflexivity|].
  destruct (Req_dec_T _ 0); [eexists; reflexivity|].
  destruct (Req_dec_T _ 0); eexists; reflexivity.
Qed.

(** On a matrix whose rows are all as long as the first one, and for a lag
    of at least 1, the coefficient of every pair of components is defined
    (possibly [nan]). *)
Lemma coefficient_total (labelmatrix : list (list Z)) (lag : Z) (nhaps : nat)
  (i1 i2 : Z) :
  (1 <= lag)%Z ->
  Forall (fun x => length x = nhaps) labelmatrix ->
  exists ac, coefficient labelmatrix lag nhaps i1 i2 = Ok ac.
Proof.
  intros Hlag Hrows. unfold coefficient, vectors.
  rewrite vectors_loop_total.
  - cbn [bind fst snd app].
    apply corrcoef_total. rewrite !length_map, !columns_length.
    rewrite slices_same_length by assumption. reflexivity.
  - apply Forall_forall. intros j Hj. apply in_seq in Hj.
    rewrite slice_to_neg by assumption. apply Forall_forall. intros x Hx.
    apply In_firstn_In in Hx. rewrite Forall_forall in Hrows.
    rewrite (Hrows x Hx). lia.
  - apply Forall_forall. intros j Hj. apply in_seq in Hj.
    rewrite slice_from_pos by assumption. apply Forall_forall. intros x Hx.
    apply In_skipn_In in Hx. rewrite Forall_forall in Hrows.
    rewrite (Hrows x Hx). lia.
Qed.

Lemma autoc_short_by_length (labelmatrix : list (list Z)) (nanc : Z) :
  (length labelmatrix < 3)%nat ->
  autoc labelmatrix nanc 1 = Ok (Degenerate 0).
Proof.
  intros Hshort. unfold autoc.
  destruct (Z.ltb_spec (Z.of_nat (length labelmatrix)) (1 + 2)).
  - reflexivity.
  - lia.
Qed.

(** C7.  On a label matrix with fewer than [lag + 2] locations [autoc]
    returns the float 0.0 at line 120, before any vector is built or any
    coefficient computed: the result is the same whatever the rows hold. *)
Theorem autoc_short_returns_zero (labelmatrix : list (list Z)) (nanc lag : Z) :
  (Z.of_nat (length labelmatrix) < lag + 2)%Z ->
  autoc labelmatrix nanc lag = Ok (Degenerate 0).
Proof.
  intros Hshort. unfold autoc.
  destruct (Z.ltb_spec (Z.of_nat (length labelmatrix)) (lag + 2)).
  - reflexivity.
  - lia.
Qed.

Lemma autoc_short_returns_zero_witness :
  autoc [[0]; [1]]%Z 2 1 = Ok (Degenerate 0).
Proof.
  apply (autoc_short_returns_zero [[0]; [1]]%Z 2 1). simpl. lia.
Defined.

(** C8.  With one component, a lag of at least 1 and a label matrix of at
    least [lag + 2] locations (rows of one length), [autoc] returns a
    dictionary with the single key [(0, 0)] and the maximum
    cross-correlation it started from, -1.0. *)
Theorem autoc_single_component (labelmatrix : list (list Z)) (lag : Z) :
  (1 <= lag)%Z ->
  (lag + 2 <= Z.of_nat (length labelmatrix))%Z ->
  Forall (fun x => length x = length (hd [] labelmatrix)) labelmatrix ->
  exists v minautocor,
    autoc labelmatrix 1 lag = Ok (Diagnostics [((0, 0)%Z, v)] (-1) minautocor).
Proof.
  intros Hlag Hlong Hrows. unfold autoc.
  destruct (Z.ltb_spec (Z.of_nat (length labelmatrix)) (lag + 2)); [lia|].
  destruct labelmatrix as [|first rest]; [simpl in Hlong; lia|].
  change (Py.getitem (first :: rest) 0) with (Ok first).
  change (Py.range 1) with [0%Z]. cbn [bind foldM].
  change (Py.range (0 + 1)) with [0%Z]. cbn [foldM].
  unfold autoc_pair.
  destruct (coefficient_total (first :: rest) lag (length first) 0 0 Hlag Hrows)
    as [ac ->].
  cbn [bind dict_set]. rewrite Z.eqb_refl. cbn [negb andb].
  destruct ac; eexists _, _; reflexivity.
Qed.

Lemma autoc_single_component_witness :
  exists v minautocor,
    autoc [[0]; [0]; [0]]%Z 1 1 = Ok (Diagnostics [((0, 0)%Z, v)] (-1) minautocor).
Proof.
  apply (autoc_single_component [[0]; [0]; [0]]%Z 1).
  - lia.
  - simpl. lia.
  - repeat constructor.
Defined.

(** ** The emission-error value *)

Lemma theta_closed_form (n : Z) :
  (1 <= n)%Z ->
  theta n = / (2 + 2 * IZR n * (ln (IZR n) + 0.5)).
Proof.
  intros Hn. unfold theta, mylambda.
  assert (1 <= IZR n) as Hn1 by (apply IZR_le in Hn; exact Hn).
  assert (0 <= ln (IZR n)) as Hln.
  { rewrite <- ln_1. destruct (Req_dec_T (IZR n) 1) as [->|Hne].
    - lra.
    - left. apply ln_increasing; lra. }
  assert (0 < IZR n * (ln (IZR n) + 0.5)) by (apply Rmult_lt_0_compat; lra).
  field. split; intros Heq; nra.
Qed.

(** ** The pair loop of [autoc] *)

Lemma foldM_app {A B : Type} (f : A -> B -> result A) (l1 l2 : list B) (a : A) :
  foldM f (l1 ++ l2) a = bind (foldM f l1 a) (foldM f l2).
Proof.
  revert a. induction l1 as [|b l1 IH]; intros a; simpl.
  - reflexivity.
  - destruct (f a b) as [a'|e]; simpl; [apply IH | reflexivity].
Qed.

Lemma foldM_map {A B C : Type} (f : A -> C -> result A) (g : B -> C)
  (l : list B) (a : A) :
  foldM f (map g l) a = foldM (fun a b => f a (g b)) l a.
Proof.
  revert a. induction l as [|b l IH]; intros a; simpl.
  - reflexivity.
  - destruct (f a (g b)) as [a'|e]; simpl; [apply IH | reflexivity].
Qed.

Lemma nested_loop_pairs {A : Type} (f : A -> Z -> Z -> result A)
  (outer : list Z) (a : A) :
  foldM (fun st i1 => foldM (fun st i2 => f st i1 i2) (Py.range (i1 + 1)) st)
        outer a
  = foldM (fun st p => f st (fst p) (snd p))
          (flat_map (fun i1 => map (fun i2 => (i1, i2)) (Py.range (i1 + 1)))
                    outer) a.
Proof.
  revert a. induction outer as [|i1 outer IH]; intros a; simpl.
  - reflexivity.
  - rewrite foldM_app, foldM_map. simpl.
    destruct (foldM _ (Py.range (i1 + 1)) a) as [a'|e]; simpl;
      [apply IH | reflexivity].
Qed.

Lemma pairs_In (nanc i1 i2 : Z) :
  In (i1, i2) (pairs nanc) <-> (0 <= i2 <= i1 /\ i1 < nanc)%Z.
Proof.
  unfold pairs. rewrite in_flat_map. split.
  - intros (j & Hj & Hin). apply range_In in Hj.
    apply in_map_iff in Hin. destruct Hin as (k & Heq & Hk).
    injection Heq as -> ->. apply range_In in Hk. lia.
  - intros [H2 H1]. exists i1. split; [apply range_In; lia|].
    apply in_map_iff. exists i2. split; [reflexivity | apply range_In; lia].
Qed.

Lemma dict_set_In (d : dict) (k : Z * Z) (v : Np.pyfloat)
  (e : (Z * Z) * Np.pyfloat) :
  In e (dict_set d k v) -> e = (k, v) \/ In e d.
Proof.
  induction d as [|[k' v'] d IH]; simpl; intros H.
  - destruct H as [<-|[]]. now left.
  - unfold key_eqb in H.
    destruct (Z.eqb_spec (fst k) (fst k')) as [H1|H1];
      destruct (Z.eqb_spec (snd k) (snd k')) as [H2|H2]; simpl in H.
    + destruct H as [<-|H]; [|now right; right].
      left. destruct k, k'; simpl in *; subst. reflexivity.
    + destruct H as [<-|H]; [now right; left|].
      destruct (IH H); [now left | now right; right].
    + destruct H as [<-|H]; [now right; left|].
      destruct (IH H); [now left | now right; right].
    + destruct H as [<-|H]; [now right; left|].
      destruct (IH H); [now left | now right; right].
Qed.

Section PairLoop.

Variables (labelmatrix : list (list Z)) (lag : Z) (nhaps : nat).

Let coef := coefficient labelmatrix lag nhaps.
Let body := fun st (p : Z * Z) =>
              autoc_pair labelmatrix lag nhaps st (fst p) (snd p).

(** What one pass of lines 124-132 does to the three variables. *)
Lemma autoc_pair_Ok (acs : dict) (mx mn : R) (i1 i2 : Z)
  (acs' : dict) (mx' mn' : R) :
  autoc_pair labelmatrix lag nhaps (acs, mx, mn) i1 i2 = Ok (acs', mx', mn') ->
  exists ac,
    coef i1 i2 = Ok ac /\
    acs' = dict_set acs (i2, i1) (Np.round3 ac) /\
    mx <= mx' /\ mn' <= mn /\
    (mx' = mx \/ (i1 <> i2 /\ ac = Np.Fin mx')) /\
    (mn' = mn \/ (i1 = i2 /\ ac = Np.Fin mn')) /\
    (forall r, ac = Np.Fin r -> (i1 <> i2 -> r <= mx') /\ (i1 = i2 -> mn' <= r)).
Proof.
  unfold autoc_pair, coef. intros H. bind_inv H. exists a.
  split; [assumption|]. injection H as <- <- <-.
  split; [reflexivity|].
  assert (Hinj : forall r r', Np.Fin r = Np.Fin r' -> r = r')
    by (intros ? ? [=]; assumption).
  destruct a as [r|]; cbn [Np.gtb Np.ltb].
  - destruct (Z.eqb_spec i1 i2) as [Heq|Hne]; cbn [negb andb].
    + destruct (Rlt_dec r mn);
        repeat split; intros; try lra; auto; try contradiction;
        match goal with
        | Hf : Np.Fin _ = Np.Fin _ |- _ => apply Hinj in Hf; lra
        end.
    + destruct (Rlt_dec mx r);
        repeat split; intros; try lra; auto; try contradiction;
        match goal with
        | Hf : Np.Fin _ = Np.Fin _ |- _ => apply Hinj in Hf; lra
        end.
  - repeat split; intros; try lra; auto; discriminate.
Qed.

Lemma pair_loop_Ok (l : list (Z * Z)) (acs : dict) (mx mn : R)
  (acs' : dict) (mx' mn' : R) :
  foldM body l (acs, mx, mn) = Ok (acs', mx', mn') ->
  (forall k v, In (k, v) acs' ->
     In (k, v) acs \/
     exists ac, coef (snd k) (fst k) = Ok ac /\ v = Np.round3 ac) /\
  mx <= mx' /\ mn' <= mn /\
  (mx' = mx \/ exists i1 i2, i1 <> i2 /\ coef i1 i2 = Ok (Np.Fin mx')) /\
  (mn' = mn \/ exists i, coef i i = Ok (Np.Fin mn')) /\
  (forall i1 i2 r, In (i1, i2) l -> coef i1 i2 = Ok (Np.Fin r) ->
     (i1 <> i2 -> r <= mx') /\ (i1 = i2 -> mn' <= r)).
Proof.
  revert acs mx mn.
  induction l as [|[i1 i2] l IH]; intros acs mx mn H; simpl in H.
  - injection H as <- <- <-.
    repeat split; intros; try lra; auto;
      match goal with
      | Hin : In _ [] |- _ => destruct Hin
      end.
  - bind_inv H. destruct a as [[acs1 mx1] mn1].
    unfold body in Hrun. cbn [fst snd] in Hrun.
    apply autoc_pair_Ok in Hrun.
    destruct Hrun as (ac & Hac & -> & Hmx & Hmn & Hmxs & Hmns & Hbound).
    apply IH in H.
    destruct H as (Hent & Hmx' & Hmn' & Hmxs' & Hmns' & Hbound').
    split; [|split; [lra|split; [lra|split; [|split]]]].
    + intros k v Hin. destruct (Hent k v Hin) as [Hold|Hnew]; [|now right].
      apply dict_set_In in Hold. destruct Hold as [[= -> ->]|Hold].
      * right. exists ac. split; [exact Hac | reflexivity].
      * now left.
    + destruct Hmxs' as [->|Hex]; [|now right].
      destruct Hmxs as [->|[Hne ->]]; [now left|].
      right. exists i1, i2. split; assumption.
    + destruct Hmns' as [->|Hex]; [|now right].
      destruct Hmns as [->|[-> ->]]; [now left|].
      right. exists i2. assumption.
    + intros j1 j2 r [[= <- <-]|Hin] Hr.
      * rewrite Hac in Hr. injection Hr as ->.
        destruct (Hbound r eq_refl) as [Hb1 Hb2].
        split; intros Hc; [specialize (Hb1 Hc) | specialize (Hb2 Hc)]; lra.
      * exact (Hbound' j1 j2 r Hin Hr).
Qed.

End PairLoop.

Lemma autoc_Diagnostics (labelmatrix : list (list Z)) (nanc lag : Z)
  (acs : dict) (mx mn : R) :
  autoc labelmatrix nanc lag = Ok (Diagnostics acs mx mn) ->
  foldM (fun st p => autoc_pair labelmatrix lag (length (hd [] labelmatrix))
                       st (fst p) (snd p))
        (pairs nanc) ([], -1, 1) = Ok (acs, mx, mn).
Proof.
  unfold autoc.
  destruct (Z.of_nat (length labelmatrix) <? lag + 2)%Z; [discriminate|].
  intros H. bind_inv H. bind_inv H.
  destruct labelmatrix as [|first rest]; [discriminate Hrun|].
  injection Hrun as <-. cbn [hd].
  rewrite nested_loop_pairs in Hrun0. unfold pairs.
  destruct a0 as [[acs0 mx0] mn0]. injection H as <- <- <-. exact Hrun0.
Qed.

(** ** A run of [autoc] with two components *)

Lemma rint_near (x : R) (z : Z) :
  IZR z - 1 / 2 < x < IZR z + 1 / 2 -> Np.rint x = z.
Proof.
  intros [Hlo Hhi]. unfold Np.rint.
  destruct (Rle_dec (IZR z) x) as [Hle|Hgt].
  - assert (Int_part x = z) as ->.
    { symmetry. apply Int_part_spec. lra. }
    destruct (Rlt_dec (x - IZR z) (1 / 2)); [reflexivity | lra].
  - assert (Int_part x = (z - 1)%Z) as ->.
    { symmetry. apply Int_part_spec. rewrite minus_IZR. lra. }
    rewrite minus_IZR.
    destruct (Rlt_dec (x - (IZR z - 1)) (1 / 2)); [lra|].
    destruct (Rlt_dec (1 / 2) (x - (IZR z - 1))); [lia | lra].
Qed.

Lemma round3_multiple (x : Np.pyfloat) (r : R) :
  Np.round3 x = Np.Fin r -> exists k : Z, r = IZR k / 1000.
Proof.
  destruct x as [r'|]; simpl; intros H.
  - injection H as <-. eexists. reflexivity.
  - discriminate H.
Qed.

Lemma clip_inside (x : R) : -1 <= x <= 1 -> Np.clip (-1) 1 x = x.
Proof.
  intros Hx. unfold Np.clip, Rmin, Rmax.
  destruct (Rle_dec (-1) x); [|lra].
  destruct (Rle_dec 1 x); lra.
Qed.

(** The coefficient of two rows of one variance [a > 0] and covariance
    [c]. *)
Lemma corrcoef_same_variance (x y : list R) (a c : R) :
  length x = length y -> (1 < length x)%nat ->
  Np.cov x x = a -> Np.cov y y = a -> Np.cov x y = c ->
  0 < a -> - a <= c <= a ->
  Np.corrcoef x y = Ok (Np.Fin (c / a)).
Proof.
  intros Hlen Hn Hxx Hyy Hxy Ha Hc. unfold Np.corrcoef.
  rewrite <- Hlen, Nat.eqb_refl. cbn [negb].
  destruct (Nat.leb_spec (length x) 1); [lia|].
  rewrite Hxx, Hyy, Hxy.
  destruct (Req_dec_T a 0); [lra|].
  assert (Hs : sqrt a * sqrt a = a) by (apply sqrt_sqrt; lra).
  assert (Hpos : 0 < sqrt a) by (apply sqrt_lt_R0; assumption).
  replace (c / sqrt a / sqrt a) with (c / a).
  - rewrite clip_inside; [reflexivity|].
    split.
    + apply Rmult_le_reg_r with a; [assumption|].
      unfold Rdiv. rewrite Rmult_assoc, Rinv_l by lra. lra.
    + apply Rmult_le_reg_r with a; [assumption|].
      unfold Rdiv. rewrite Rmult_assoc, Rinv_l by lra. lra.
  - rewrite <- Hs at 1. field. lra.
Qed.

Ltac cov_value :=
  unfold Np.cov, Np.dot, Np.center, Np.mean, Py.fsum; simpl; field.

Lemma coefficient_two_blocks_00 :
  coefficient two_blocks 1 1 0 0 = Ok (Np.Fin (2 / 3)).
Proof.
  unfold coefficient.
  change (vectors two_blocks 1 1 0 0) with (Ok ([1; 1; 1; 0; 0], [1; 1; 0; 0; 0])%Z).
  cbn [bind fst snd map].
  replace (2 / 3) with ((2 / 10) / (3 / 10)) by field.
  apply corrcoef_same_variance; try reflexivity; try (simpl; lia);
    try cov_value; lra.
Qed.

Lemma coefficient_two_blocks_10 :
  coefficient two_blocks 1 1 1 0 = Ok (Np.Fin (- 2 / 3)).
Proof.
  unfold coefficient.
  change (vectors two_blocks 1 1 1 0) with (Ok ([0; 0; 0; 1; 1], [1; 1; 0; 0; 0])%Z).
  cbn [bind fst snd map].
  replace (- 2 / 3) with ((- 2 / 10) / (3 / 10)) by field.
  apply corrcoef_same_variance; try reflexivity; try (simpl; lia);
    try cov_value; lra.
Qed.

Lemma coefficient_two_blocks_11 :
  coefficient two_blocks 1 1 1 1 = Ok (Np.Fin (2 / 3)).
Proof.
  unfold coefficient.
  change (vectors two_blocks 1 1 1 1) with (Ok ([0; 0; 0; 1; 1], [0; 0; 1; 1; 1])%Z).
  cbn [bind fst snd map].
  replace (2 / 3) with ((2 / 10) / (3 / 10)) by field.
  apply corrcoef_same_variance; try reflexivity; try (simpl; lia);
    try cov_value; lra.
Qed.

Lemma round3_two_thirds : Np.round3 (Np.Fin (2 / 3)) = Np.Fin 0.667.
Proof.
  unfold Np.round3. rewrite (rint_near _ 667); [f_equal; lra | lra].
Qed.

Lemma round3_minus_two_thirds :
  Np.round3 (Np.Fin (- 2 / 3)) = Np.Fin (- 0.667).
Proof.
  unfold Np.round3. rewrite (rint_near _ (-667)); [f_equal; lra | lra].
Qed.

Lemma autoc_two_blocks :
  autoc two_blocks 2 1 =
  Ok (Diagnostics [((0, 0)%Z, Np.Fin 0.667);
                   ((0, 1)%Z, Np.Fin (- 0.667));
                   ((1, 1)%Z, Np.Fin 0.667)]
                  (- 2 / 3) (2 / 3)).
Proof.
  unfold autoc.
  change (Z.of_nat (length two_blocks) <? 1 + 2)%Z with false.
  change (Py.getitem two_blocks 0) with (Ok [0%Z]).
  change (Py.range 2) with [0; 1]%Z. cbn [bind foldM length].
  change (Py.range (0 + 1)) with [0%Z].
  change (Py.range (1 + 1)) with [0; 1]%Z. cbn [foldM].
  unfold autoc_pair at 1. rewrite coefficient_two_blocks_00.
  cbn [bind dict_set Np.gtb Np.ltb Z.eqb negb andb].
  rewrite round3_two_thirds.
  destruct (Rlt_dec (2 / 3) 1); [|lra].
  unfold autoc_pair at 1. rewrite coefficient_two_blocks_10.
  cbn [bind dict_set Np.gtb Np.ltb Z.eqb negb andb key_eqb fst snd
       Pos.eqb].
  rewrite round3_minus_two_thirds.
  destruct (Rlt_dec (-1) (- 2 / 3)); [|lra].
  unfold autoc_pair at 1. rewrite coefficient_two_blocks_11.
  cbn [bind dict_set Np.gtb Np.ltb Z.eqb negb andb key_eqb fst snd
       Pos.eqb].
  rewrite round3_two_thirds.
  destruct (Rlt_dec (2 / 3) (2 / 3)); [lra|].
  reflexivity.
Qed.

(** ** Which locations the lag pairs up *)

Lemma combine_app_same {A B : Type} (a1 a2 : list A) (b1 b2 : list B) :
  length a1 = length b1 ->
  combine (a1 ++ a2) (b1 ++ b2) = combine a1 b1 ++ combine a2 b2.
Proof.
  revert b1. induction a1 as [|x a1 IH]; intros [|y b1] Hlen;
    try discriminate Hlen.
  - reflexivity.
  - injection Hlen as Hlen. simpl. rewrite IH by assumption. reflexivity.
Qed.

Lemma combine_map_map {A B C D : Type} (f : A -> C) (g : B -> D)
  (a : list A) (b : list B) :
  combine (map f a) (map g b)
  = map (fun p => (f (fst p), g (snd p))) (combine a b).
Proof.
  revert b. induction a as [|x a IH]; intros [|y b]; simpl;
    try reflexivity.
  rewrite IH. reflexivity.
Qed.

Lemma combine_same {A B C : Type} (f : A -> B) (g : A -> C) (l : list A) :
  combine (map f l) (map g l) = map (fun t => (f t, g t)) l.
Proof.
  induction l as [|x l IH]; simpl; [reflexivity|].
  rewrite IH. reflexivity.
Qed.

Lemma firstn_as_nth {A : Type} (d : A) (l : list A) (m : nat) :
  (m <= length l)%nat ->
  firstn m l = map (fun t => nth t l d) (seq 0 m).
Proof.
  revert m. induction l as [|x l IH]; intros m Hm.
  - simpl in Hm. assert (m = 0%nat) as -> by lia. reflexivity.
  - destruct m as [|m]; [reflexivity|].
    simpl in Hm. cbn [firstn seq map nth]. f_equal.
    rewrite <- seq_shift, map_map. apply IH. lia.
Qed.

Lemma skipn_as_nth {A : Type} (d : A) (l : list A) (k : nat) :
  skipn k l = map (fun t => nth (t + k) l d) (seq 0 (length l - k)).
Proof.
  revert l. induction k as [|k IH]; intros l.
  - rewrite Nat.sub_0_r. cbn [skipn].
    transitivity (firstn (length l) l); [symmetry; apply firstn_all|].
    rewrite (firstn_as_nth d) by lia.
    apply map_ext. intros t. rewrite Nat.add_0_r. reflexivity.
  - destruct l as [|x l]; [reflexivity|].
    cbn [skipn length]. rewrite Nat.sub_succ, IH.
    apply map_ext. intros t. rewrite Nat.add_succ_r. reflexivity.
Qed.

Lemma lag_slices_as_nth {A : Type} (d : A) (l : list A) (lag : Z) :
  (1 <= lag)%Z ->
  combine (Py.slice_to l (- lag)) (Py.slice_from l lag)
  = map (fun t => (nth t l d, nth (t + Z.to_nat lag) l d))
        (seq 0 (length l - Z.to_nat lag)).
Proof.
  intros Hlag. rewrite slice_to_neg, slice_from_pos by assumption.
  rewrite (firstn_as_nth d) by lia. rewrite (skipn_as_nth d).
  apply combine_same.
Qed.

Lemma lag_pairs_consecutive (nloc : nat) (lag : Z) :
  (1 <= lag)%Z ->
  lag_pairs nloc lag
  = map (fun t => (t, (t + Z.to_nat lag)%nat)) (seq 0 (nloc - Z.to_nat lag)).
Proof.
  intros Hlag. unfold lag_pairs.
  rewrite (lag_slices_as_nth 0%nat) by assumption.
  rewrite length_seq. apply map_ext_in. intros t Ht. apply in_seq in Ht.
  rewrite !seq_nth by lia. reflexivity.
Qed.

Lemma combine_columns (A B : list (list Z)) (js : list nat) (i1 i2 : Z) :
  length A = length B ->
  combine (columns A js i1) (columns B js i2)
  = flat_map (fun j => map (fun p => (indicator (nth j (fst p) 0%Z) i1,
                                      indicator (nth j (snd p) 0%Z) i2))
                           (combine A B)) js.
Proof.
  intros Hlen. unfold columns. induction js as [|j js IH]; simpl.
  - reflexivity.
  - rewrite combine_app_same.
    + rewrite IH. f_equal. unfold column.
      exact (combine_map_map (fun x => indicator (nth j x 0%Z) i1)
                             (fun x => indicator (nth j x 0%Z) i2) A B).
    + unfold column. rewrite !length_map. assumption.
Qed.

Lemma read_two_chromosomes :
  Reader.read 2 two_chromosomes =
  Ok (Reader.mkTable [[[0.9; 0.1]]; [[0.8; 0.2]]; [[0.3; 0.7]]]
                     [[0.01]; [0.02]; [0.03]] [0%Z]).
Proof. reflexivity. Qed.

Lemma locations_two_chromosomes :
  Reader.locations two_chromosomes =
  [("chr1", [0%Z]); ("chr1", [0%Z]); ("chr2", [0%Z])]%string.
Proof. reflexivity. Qed.

(** C3, refuted as stated.  The table read from [two_chromosomes] has three
    locations in one list; with lag 1 the second ([chr1]) is paired with the
    third ([chr2]). *)
Lemma autoc_pairs_across_chromosomes :
  ~ no_pair_spans_chromosomes 2 two_chromosomes 1.
Proof.
  intros H.
  specialize (H _ 1%nat 2%nat read_two_chromosomes).
  unfold chrom_of in H. rewrite locations_two_chromosomes in H.
  assert (Hin : In (1%nat, 2%nat) (lag_pairs 3 1)) by (right; left; reflexivity).
  specialize (H Hin). discriminate H.
Qed.

(** The vectors built from three one-haplotype rows pair row 0 with row 1
    and row 1 with row 2. *)
Example vectors_three_rows :
  vectors [[0]; [0]; [1]]%Z 1 1 0 1 = Ok ([1; 1], [0; 1])%Z.
Proof. reflexivity. Qed.

(** C3, amended.  For a lag of at least 1, the samples [autoc] correlates
    are, haplotype by haplotype, the label of row [t] against the label of
    row [t + lag] for every [t < N - lag] of the one list of rows: rows are
    adjacent by position in that list, whatever chromosome they come
    from. *)
Theorem autoc_pairs_rows_by_position (labelmatrix : list (list Z)) (lag : Z)
  (nhaps : nat) (i1 i2 : Z) (vec0 veclag : list Z) :
  (1 <= lag)%Z ->
  vectors labelmatrix lag nhaps i1 i2 = Ok (vec0, veclag) ->
  combine vec0 veclag
  = flat_map
      (fun j => map (fun p =>
                       (indicator (nth j (nth (fst p) labelmatrix []) 0%Z) i1,
                        indicator (nth j (nth (snd p) labelmatrix []) 0%Z) i2))
                    (lag_pairs (length labelmatrix) lag))
      (seq 0 nhaps)
  /\ lag_pairs (length labelmatrix) lag
     = map (fun t => (t, (t + Z.to_nat lag)%nat))
           (seq 0 (length labelmatrix - Z.to_nat lag)).
Proof.
  intros Hlag H. split; [|apply lag_pairs_consecutive; assumption].
  apply vectors_Ok in H. injection H as -> ->.
  rewrite combine_columns by (apply slices_same_length; assumption).
  apply flat_map_ext. intros j.
  rewrite (lag_slices_as_nth []) by assumption.
  rewrite lag_pairs_consecutive by assumption.
  rewrite !map_map. reflexivity.
Qed.

Lemma autoc_pairs_rows_by_position_witness :
  combine [1; 1]%Z [0; 1]%Z
  = flat_map
      (fun j => map (fun p =>
                       (indicator (nth j (nth (fst p) [[0]; [0]; [1]]%Z []) 0%Z) 0,
                        indicator (nth j (nth (snd p) [[0]; [0]; [1]]%Z []) 0%Z) 1))
                    (lag_pairs 3 1))
      (seq 0 1)
  /\ lag_pairs 3 1 = map (fun t => (t, (t + Z.to_nat 1)%nat)) (seq 0 (3 - Z.to_nat 1)).
Proof.
  apply (autoc_pairs_rows_by_position [[0]; [0]; [1]]%Z 1 1 0 1).
  - lia.
  - reflexivity.
Defined.

(** ** The reader opens one slot per location *)

Lemma append_at_length {A : Type} (l : list (list A)) (i : nat) (v : A)
  (l' : list (list A)) :
  Py.append_at l i v = Ok l' -> length l' = length l.
Proof.
  unfold Py.append_at. destruct (nth_error l i) as [row|] eqn:Hnth; intros H.
  - injection H as <-.
    assert (i < length l)%nat by (apply nth_error_Some; congruence).
    pose proof (length_skipn (S i) l) as Htl.
    rewrite !length_app, length_firstn, Nat.min_l by lia.
    cbn [length].
    change (match l with [] => [] | _ :: l0 => skipn i l0 end)
      with (skipn (S i) l).
    lia.
  - discriminate H.
Qed.

Lemma on_chrom_slots (chrom : string) (st : Reader.state) :
  slots (Reader.on_chrom chrom st) = slots st
  /\ Reader.oldlocindex (Reader.on_chrom chrom st) = Reader.oldlocindex st.
Proof.
  unfold Reader.on_chrom, slots.
  destruct (Reader.chrom_differs chrom (Reader.oldchrom st)); simpl.
  - destruct (Reader.panelprobschrom st) as [|x ppc]; simpl.
    + split; [lia | reflexivity].
    + rewrite length_app. simpl. split; [lia | reflexivity].
  - split; reflexivity.
Qed.

Lemma step_slots (npanel : nat) (st st' : Reader.state) (ln : Reader.line)
  (acc : Z * list (string * list Z)) :
  Reader.step npanel st ln = Ok st' ->
  fst acc = Reader.oldlocindex st -> length (snd acc) = slots st ->
  fst (Reader.locations_step acc ln) = Reader.oldlocindex st'
  /\ length (snd (Reader.locations_step acc ln)) = slots st'.
Proof.
  intros H Hold Hlen. destruct ln as [|locindex chrom hapindex thisrho probs].
  - simpl in H. injection H as <-. simpl. split; assumption.
  - simpl in H. bind_inv H. rename a into st1.
    destruct (on_chrom_slots chrom st) as [Hs Ho].
    rewrite <- Hs in Hlen. rewrite <- Ho in Hold.
    remember (Reader.on_chrom chrom st) as st0 eqn:Hst0. clear Hst0 Hs Ho st.
    assert (H1 : fst (Reader.locations_step acc
                        (Reader.Rec locindex chrom hapindex thisrho probs))
                 = Reader.oldlocindex st1
                 /\ length (snd (Reader.locations_step acc
                        (Reader.Rec locindex chrom hapindex thisrho probs)))
                    = slots st1).
    { unfold Reader.on_location in Hrun. simpl. rewrite Hold.
      destruct (locindex =? Reader.oldlocindex st0)%Z eqn:Heq; cbn [negb] in *.
      - injection Hrun as <-. apply Z.eqb_eq in Heq.
        destruct (rev (snd acc)) as [|[c haps] front] eqn:Hrev.
        + split; [congruence | assumption].
        + simpl. split; [assumption|].
          rewrite <- Hlen, <- (length_rev (snd acc)), Hrev.
          rewrite length_app, length_rev. simpl. lia.
      - bind_inv Hrun. injection Hrun as <-. simpl. split; [reflexivity|].
        unfold slots in *. simpl. rewrite !length_app. simpl. lia. }
    destruct H1 as [H1 H2]. rewrite H1, H2.
    unfold Reader.on_record in H.
    destruct (negb (length probs =? npanel)%nat); [discriminate H|].
    destruct (length (Reader.panelprobschrom st1)) as [|i] eqn:Hppc;
      [discriminate H|].
    bind_inv H. bind_inv H. injection H as <-. simpl.
    apply append_at_length in Hrun0. unfold slots. simpl.
    split; [reflexivity | lia].
Qed.

Lemma loop_slots (npanel : nat) (body : list Reader.line)
  (st st' : Reader.state) (acc : Z * list (string * list Z)) :
  Reader.loop npanel st body = Ok st' ->
  fst acc = Reader.oldlocindex st -> length (snd acc) = slots st ->
  length (snd (fold_left Reader.locations_step body acc)) = slots st'.
Proof.
  revert st acc. induction body as [|ln body IH]; intros st acc H Hold Hlen.
  - simpl in H. injection H as <-. assumption.
  - simpl in H. bind_inv H.
    destruct (step_slots _ _ _ _ acc Hrun Hold Hlen) as [Hold' Hlen'].
    simpl. exact (IH _ _ H Hold' Hlen').
Qed.

(** Whenever the reader returns, the table has one row per location of the
    body, in the same order: [chrom_of body t] is the chromosome of row
    [t]. *)
Lemma read_nloc (npanel : nat) (body : list Reader.line) (tbl : Reader.table) :
  Reader.read npanel body = Ok tbl ->
  Reader.nloc tbl = length (Reader.locations body).
Proof.
  unfold Reader.read. intros H. bind_inv H. injection H as <-.
  unfold Reader.nloc, Reader.locations. simpl. rewrite length_app.
  symmetry. apply (loop_slots _ _ _ _ _ Hrun); reflexivity.
Qed.

(** ** The haplotype check of the reader *)

Example read_middle_location_differs :
  Reader.read 2 middle_location_differs = Raise (SystemExit Reader.msg_hap).
Proof. reflexivity. Qed.

Example read_last_location_differs :
  hap_mismatch last_location_differs
  /\ Reader.read 2 last_location_differs =
     Ok (Reader.mkTable [[[0.9; 0.1]; [0.8; 0.2]]; [[0.7; 0.3]; [0.6; 0.4]]]
                        [[0.01; 0.01]; [0.02; 0.02]] [2; 3]%Z).
Proof.
  split; [|reflexivity].
  exists 0%nat, [0; 1]%Z, [2; 3]%Z. repeat split; discriminate.
Qed.

(** C2, the code at a failing input.  In [shorter_location] the second
    location lists haplotype 0 only, a proper prefix of the first location's
    0, 1; the reader raises nothing and returns a ragged table. *)
Theorem read_accepts_shorter_location :
  hap_mismatch shorter_location
  /\ Reader.read 2 shorter_location =
     Ok (Reader.mkTable [[[0.9; 0.1]; [0.8; 0.2]]; [[0.7; 0.3]]; [[0.6; 0.4]]]
                        [[0.01; 0.01]; [0.02]; [0.03]] [0%Z]).
Proof.
  split; [|reflexivity].
  exists 0%nat, [0; 1]%Z, [0%Z]. repeat split; discriminate.
Qed.

(** ** The script on fewer than three locations *)

Lemma main_short (fit : list (list R) -> Z -> result (list (list R) * list Z))
  (nanc nrefhaps : Z) (refpops : list string) (body : list Reader.line)
  (tbl : Reader.table) (labelmatrix : list (list Z)) (param : list (list R)) :
  Reader.read (length refpops) body = Ok tbl ->
  cluster fit (Reader.t_panelprobs tbl) nanc = Ok (labelmatrix, param) ->
  (length labelmatrix < 3)%nat ->
  main fit nanc nrefhaps refpops body =
  match make_rho labelmatrix (Reader.t_rhovals tbl) nanc with
  | Ok _ => Raise TypeError
  | Raise e => Raise e
  end.
Proof.
  intros Hread Hcluster Hshort. unfold main.
  rewrite Hread. cbn [bind]. rewrite Hcluster. cbn [bind].
  destruct (make_rho labelmatrix (Reader.t_rhovals tbl) nanc) as [rho|e];
    [|reflexivity].
  cbn [bind]. rewrite autoc_short_by_length by lia. reflexivity.
Qed.

Lemma cluster_two_locations :
  exists param,
    cluster single_component_fit [[[0.6; 0.4]]; [[0.3; 0.7]]] 1
    = Ok ([[0]; [0]]%Z, param).
Proof.
  unfold cluster. simpl Py.getitem. simpl bind.
  simpl concat. unfold Np.array2. simpl. unfold Py.fsum. simpl.
  decide_Rlt. eexists. reflexivity.
Qed.

(** X22.  On every panels file with fewer than three locations, each with
    the same number of haplotypes, the script never reaches its end (the fit
    predicting one label per vector). *)
Lemma main_fewer_than_three_locations
  (fit : list (list R) -> Z -> result (list (list R) * list Z))
  (nanc nrefhaps : Z) (refpops : list string) (body : list Reader.line)
  (tbl : Reader.table) :
  Reader.read (length refpops) body = Ok tbl ->
  (Reader.nloc tbl < 3)%nat ->
  Forall (fun location =>
            length location = length (hd [] (Reader.t_panelprobs tbl)))
         (Reader.t_panelprobs tbl) ->
  (forall transformed means_ labels,
      fit transformed nanc = Ok (means_, labels) ->
      length labels = length transformed) ->
  exists e, main fit nanc nrefhaps refpops body = Raise e.
Proof.
  intros Hread Hshort Hrect Hfit.
  destruct (cluster fit (Reader.t_panelprobs tbl) nanc)
    as [[labelmatrix param]|e] eqn:Hcluster.
  - rewrite (main_short _ _ _ _ _ _ _ _ Hread Hcluster).
    + destruct (make_rho _ _ _); eexists; reflexivity.
    + rewrite (cluster_one_row_per_location _ _ _ _ _ Hcluster Hrect Hfit).
      exact Hshort.
  - exists e. unfold main. rewrite Hread. cbn [bind]. rewrite Hcluster.
    reflexivity.
Qed.

(** C4, the code at a failing input.  On a panels file with two locations
    the script reads the table, clusters it and computes the switch rates,
    then stops with [TypeError] at line 143: [autoc] returned the float 0.0
    and the call site unpacks three values. *)
Theorem main_two_locations_raises :
  main single_component_fit 1 100 ["A"; "B"]%string two_locations
  = Raise TypeError.
Proof.
  destruct cluster_two_locations as [param Hcluster].
  rewrite (main_short single_component_fit 1 100 ["A"; "B"]%string
             two_locations
             (Reader.mkTable [[[0.6; 0.4]]; [[0.3; 0.7]]] [[0.01]; [0.02]] [0%Z])
             [[0]; [0]]%Z param).
  - reflexivity.
  - reflexivity.
  - exact Hcluster.
  - simpl. lia.
Qed.

(** * Further properties of the code *)

(** ** The reader's loop *)

Lemma app_same_length_inj {A : Type} (l1 l2 m1 m2 : list A) :
  l1 ++ l2 = m1 ++ m2 -> length l1 = length m1 -> l1 = m1 /\ l2 = m2.
Proof.
  revert m1. induction l1 as [|x l1 IH]; intros [|y m1] Heq Hlen;
    try discriminate Hlen.
  - split; [reflexivity | exact Heq].
  - injection Heq as -> Heq. injection Hlen as Hlen.
    destruct (IH m1 Heq Hlen) as [-> ->]. split; reflexivity.
Qed.

Lemma split_at_length {A : Type} (l1 : list A) (x : A) (l2 : list A) :
  firstn (length l1) (l1 ++ x :: l2) = l1
  /\ skipn (S (length l1)) (l1 ++ x :: l2) = l2.
Proof.
  induction l1 as [|y l1 [IH1 IH2]]; cbn [length app firstn skipn].
  - split; reflexivity.
  - rewrite IH1. split; [reflexivity | exact IH2].
Qed.

Lemma append_at_split {A : Type} (l : list (list A)) (i : nat) (v : A)
  (l' : list (list A)) :
  Py.append_at l i v = Ok l' ->
  exists l1 row l2,
    l = l1 ++ row :: l2 /\ length l1 = i /\ l' = l1 ++ (row ++ [v]) :: l2.
Proof.
  unfold Py.append_at. destruct (nth_error l i) as [row|] eqn:Hnth; intros H.
  - assert (Hl' : l' = firstn i l ++ [row ++ [v]] ++ skipn (S i) l)
      by congruence.
    clear H.
    destruct (nth_error_split l i Hnth) as (l1 & l2 & -> & Hlen).
    exists l1, row, l2. split; [reflexivity|]. split; [assumption|].
    rewrite <- Hlen in Hl'.
    destruct (split_at_length l1 row l2) as [H1 H2].
    rewrite H1, H2 in Hl'. exact Hl'.
  - discriminate H.
Qed.

(** What a successful pass of lines 40-66 over a record does. *)
Lemma step_Rec_Ok (npanel : nat) (st st' : Reader.state) (locindex : Z)
  (chrom : string) (hapindex : Z) (thisrho : R) (probs : list R) :
  Reader.step npanel st (Reader.Rec locindex chrom hapindex thisrho probs)
  = Ok st' ->
  let st0 := Reader.on_chrom chrom st in
  length probs = npanel /\
  Reader.panelprobs st' = Reader.panelprobs st0 /\
  Reader.rhovals st' = Reader.rhovals st0 /\
  exists i,
    (locindex <> Reader.oldlocindex st0 /\
     (Reader.hapindices st0 = [] \/
      exists old, Reader.oldhapindices st0 = Some old /\
                  Py.any_differ (Reader.hapindices st0) old = false) /\
     length (Reader.panelprobschrom st0) = i /\
     Py.append_at (Reader.panelprobschrom st0 ++ [[]]) i probs
     = Ok (Reader.panelprobschrom st') /\
     Py.append_at (Reader.rhovalschrom st0 ++ [[]]) i thisrho
     = Ok (Reader.rhovalschrom st') /\
     Reader.hapindices st' = [hapindex] /\
     Reader.oldhapindices st' = Some (Reader.hapindices st0) /\
     Reader.oldlocindex st' = locindex)
    \/
    (locindex = Reader.oldlocindex st0 /\
     length (Reader.panelprobschrom st0) = S i /\
     Py.append_at (Reader.panelprobschrom st0) i probs
     = Ok (Reader.panelprobschrom st') /\
     Py.append_at (Reader.rhovalschrom st0) i thisrho
     = Ok (Reader.rhovalschrom st') /\
     Reader.hapindices st' = Reader.hapindices st0 ++ [hapindex] /\
     Reader.oldhapindices st' = Reader.oldhapindices st0 /\
     Reader.oldlocindex st' = Reader.oldlocindex st0).
Proof.
  intros H. cbv zeta. cbn [Reader.step] in H.
  remember (Reader.on_chrom chrom st) as st0 eqn:Hst0. clear Hst0 st.
  bind_inv H. rename a into st1.
  unfold Reader.on_record in H.
  destruct (Nat.eqb_spec (length probs) npanel) as [Hlen|Hlen];
    cbn [negb] in H; [|discriminate H].
  split; [exact Hlen|].
  destruct (length (Reader.panelprobschrom st1)) as [|i] eqn:Hppc;
    [discriminate H|].
  bind_inv H. bind_inv H. injection H as <-. cbn.
  unfold Reader.on_location in Hrun.
  destruct (Z.eqb_spec locindex (Reader.oldlocindex st0)) as [Heq|Hne];
    cbn [negb] in Hrun.
  - injection Hrun as <-. repeat split. exists i. right.
    repeat split; assumption.
  - bind_inv Hrun. injection Hrun as <-. cbn in *.
    repeat split. exists i. left.
    rewrite length_app in Hppc. cbn in Hppc.
    repeat split; try assumption; try lia.
    destruct (Reader.hapindices st0) as [|h0 hs]; [now left|].
    right. cbn [length] in Hrun2.
    destruct (Reader.oldhapindices st0) as [old|]; [|discriminate Hrun2].
    exists old. split; [reflexivity|].
    destruct (Py.any_differ (h0 :: hs) old); [discriminate Hrun2 | reflexivity].
Qed.

Lemma append_at_new_slot {A : Type} (l : list (list A)) (v : A)
  (l' : list (list A)) :
  Py.append_at (l ++ [[]]) (length l) v = Ok l' -> l' = l ++ [[v]].
Proof.
  intros H. apply append_at_split in H.
  destruct H as (l1 & row & l2 & Heq & Hlen & ->).
  symmetry in Hlen. destruct (app_same_length_inj _ _ _ _ Heq Hlen) as [<- Htl].
  injection Htl as <- <-. reflexivity.
Qed.

Lemma map_length_same_length {A B : Type} (l : list (list A))
  (m : list (list B)) :
  map (@length _) l = map (@length _) m -> length l = length m.
Proof.
  intros H. rewrite <- (length_map (@length _) l), H. apply length_map.
Qed.

Lemma on_chrom_keeps (chrom : string) (st : Reader.state) :
  map (@length _) (Reader.panelprobschrom st)
  = map (@length _) (Reader.rhovalschrom st) ->
  let st0 := Reader.on_chrom chrom st in
  Reader.panelprobs st0 ++ Reader.panelprobschrom st0
  = Reader.panelprobs st ++ Reader.panelprobschrom st
  /\ Reader.rhovals st0 ++ Reader.rhovalschrom st0
     = Reader.rhovals st ++ Reader.rhovalschrom st
  /\ (Reader.panelprobschrom st0 = Reader.panelprobschrom st
      /\ Reader.rhovalschrom st0 = Reader.rhovalschrom st
      /\ Reader.panelprobs st0 = Reader.panelprobs st
      /\ Reader.rhovals st0 = Reader.rhovals st
      \/
      Reader.panelprobschrom st0 = [] /\ Reader.rhovalschrom st0 = []
      /\ Reader.panelprobs st0
         = Reader.panelprobs st ++ Reader.panelprobschrom st
      /\ Reader.rhovals st0 = Reader.rhovals st ++ Reader.rhovalschrom st)
  /\ Reader.hapindices st0 = Reader.hapindices st
  /\ Reader.oldhapindices st0 = Reader.oldhapindices st
  /\ Reader.oldlocindex st0 = Reader.oldlocindex st.
Proof.
  intros Hshape. unfold Reader.on_chrom.
  destruct (Reader.chrom_differs chrom (Reader.oldchrom st)); cbn.
  - destruct (Reader.panelprobschrom st) as [|x ppc] eqn:Hppc;
      destruct (Reader.rhovalschrom st) as [|y rvc] eqn:Hrvc;
      try discriminate Hshape; cbn.
    + rewrite !app_nil_r. repeat split. right. repeat split.
    + rewrite !app_nil_r. repeat split. right. repeat split.
  - repeat split. left. repeat split.
Qed.

Lemma location_ok_snoc (npanel : nat) (row : list (list R)) (probs : list R) :
  Forall (fun v => length v = npanel) row -> length probs = npanel ->
  location_ok npanel (row ++ [probs]).
Proof.
  intros Hrow Hprobs. split.
  - destruct row; discriminate.
  - apply Forall_app. split; [exact Hrow | repeat constructor; exact Hprobs].
Qed.

Lemma step_inv (npanel : nat) (st st' : Reader.state) (ln : Reader.line) :
  Reader.step npanel st ln = Ok st' ->
  reader_inv npanel st -> reader_inv npanel st'.
Proof.
  intros H (Hout & Hin & Hok).
  destruct ln as [|locindex chrom hapindex thisrho probs].
  - cbn in H. injection H as <-. repeat split; assumption.
  - apply step_Rec_Ok in H. cbv zeta in H.
    destruct (on_chrom_keeps chrom st Hin)
      as (Hpp & Hrv & Hcases & _). cbv zeta in Hpp, Hrv, Hcases.
    remember (Reader.on_chrom chrom st) as st0 eqn:Hst0. clear Hst0.
    assert (Hout0 : map (@length _) (Reader.panelprobs st0)
                    = map (@length _) (Reader.rhovals st0)).
    { destruct Hcases as [(_ & _ & -> & ->)|(_ & _ & -> & ->)];
        [assumption|]. rewrite !map_app, Hout, Hin. reflexivity. }
    assert (Hin0 : map (@length _) (Reader.panelprobschrom st0)
                   = map (@length _) (Reader.rhovalschrom st0)).
    { destruct Hcases as [(-> & -> & _)|(-> & -> & _)];
        [assumption | reflexivity]. }
    rewrite <- Hpp in Hok. clear Hpp Hrv Hcases Hout Hin st.
    apply Forall_app in Hok. destruct Hok as [Hok1 Hok2].
    destruct H as (Hlen & Hpp' & Hrv' & i & [Hnew|Hsame]).
    + destruct Hnew as (_ & _ & Hi & Happ & Harv & _). subst i.
      apply append_at_new_slot in Happ.
      rewrite (map_length_same_length _ _ Hin0) in Harv.
      apply append_at_new_slot in Harv.
      unfold reader_inv. rewrite Hpp', Hrv', Happ, Harv.
      split; [assumption|]. split.
      * rewrite !map_app, Hin0. reflexivity.
      * apply Forall_app. split; [assumption|].
        apply Forall_app. split; [assumption|]. constructor; [|constructor].
        apply (location_ok_snoc npanel [] probs); [constructor | assumption].
    + destruct Hsame as (_ & _ & Happ & Harv & _).
      apply append_at_split in Happ, Harv.
      destruct Happ as (l1 & row & l2 & Hl & Hl1 & Hl').
      destruct Harv as (m1 & r & m2 & Hm & Hm1 & Hm').
      unfold reader_inv. rewrite Hpp', Hrv', Hl', Hm'.
      rewrite Hl, Hm in Hin0. rewrite Hl in Hok2.
      rewrite !map_app in Hin0. cbn [map] in Hin0.
      apply app_same_length_inj in Hin0;
        [|rewrite !length_map; congruence].
      destruct Hin0 as [H1 H2]. injection H2 as Hrow H2.
      split; [assumption|]. split.
      * rewrite !map_app. cbn [map]. rewrite !length_app, H1, H2, Hrow.
        reflexivity.
      * apply Forall_app in Hok2. destruct Hok2 as [Hok2 Hok3].
        apply Forall_cons_iff in Hok3. destruct Hok3 as [[_ Hrowok] Hok4].
        apply Forall_app. split; [assumption|].
        apply Forall_app. split; [assumption|].
        constructor; [|assumption].
        apply location_ok_snoc; assumption.
Qed.

Lemma loop_inv (npanel : nat) (body : list Reader.line)
  (st st' : Reader.state) :
  Reader.loop npanel st body = Ok st' ->
  reader_inv npanel st -> reader_inv npanel st'.
Proof.
  revert st. induction body as [|ln body IH]; intros st H Hinv; cbn in H.
  - injection H as <-. assumption.
  - bind_inv H. apply (IH _ H). apply (step_inv _ _ _ _ Hrun Hinv).
Qed.

Lemma init_inv (npanel : nat) : reader_inv npanel Reader.init.
Proof. repeat split; constructor. Qed.

(** X1.  Whenever the reader returns, the recombination table has the shape
    of the probability table: as many locations, and at each location as
    many values as there are probability vectors. *)
Theorem read_tables_parallel (npanel : nat) (body : list Reader.line)
  (tbl : Reader.table) :
  Reader.read npanel body = Ok tbl ->
  map (@length _) (Reader.t_rhovals tbl)
  = map (@length _) (Reader.t_panelprobs tbl).
Proof.
  unfold Reader.read. intros H. bind_inv H. injection H as <-.
  destruct (loop_inv _ _ _ _ Hrun (init_inv npanel)) as (Hout & Hin & _).
  cbn. rewrite !map_app, Hout, Hin. reflexivity.
Qed.

Lemma read_tables_parallel_witness :
  map (@length _) [[0.01]; [0.02]; [0.03]]
  = map (@length _) [[[0.9; 0.1]]; [[0.8; 0.2]]; [[0.3; 0.7]]].
Proof.
  exact (read_tables_parallel 2 two_chromosomes _ read_two_chromosomes).
Defined.

(** X2.  Whenever the reader returns, every location of the table lists at
    least one haplotype and every probability vector has exactly [npanel]
    entries. *)
Theorem read_locations_well_formed (npanel : nat) (body : list Reader.line)
  (tbl : Reader.table) :
  Reader.read npanel body = Ok tbl ->
  Forall (location_ok npanel) (Reader.t_panelprobs tbl).
Proof.
  unfold Reader.read. intros H. bind_inv H. injection H as <-.
  destruct (loop_inv _ _ _ _ Hrun (init_inv npanel)) as (_ & _ & Hok).
  exact Hok.
Qed.

Lemma read_locations_well_formed_witness :
  Forall (location_ok 2) [[[0.9; 0.1]]; [[0.8; 0.2]]; [[0.3; 0.7]]].
Proof.
  exact (read_locations_well_formed 2 two_chromosomes _ read_two_chromosomes).
Defined.

Lemma loop_app (npanel : nat) (a b : list Reader.line) (st : Reader.state) :
  Reader.loop npanel st (a ++ b)
  = bind (Reader.loop npanel st a) (fun st' => Reader.loop npanel st' b).
Proof.
  revert st. induction a as [|ln a IH]; intros st; cbn.
  - reflexivity.
  - destruct (Reader.step npanel st ln) as [st'|e]; cbn;
      [apply IH | reflexivity].
Qed.

(** X3.  Comment lines change nothing: the reader returns the same table,
    or raises the same exception, on a body and on its records alone. *)
Theorem read_ignores_comments (npanel : nat) (body : list Reader.line) :
  Reader.read npanel body = Reader.read npanel (records body).
Proof.
  unfold Reader.read. f_equal. generalize Reader.init as st.
  induction body as [|ln body IH]; intros st.
  - reflexivity.
  - destruct ln as [|locindex chrom hapindex thisrho probs].
    + cbn. apply IH.
    + cbn [records filter is_comment negb Reader.loop].
      destruct (Reader.step npanel st _) as [st'|e]; cbn;
        [apply IH | reflexivity].
Qed.



Lemma on_chrom_haps (chrom : string) (st : Reader.state) :
  Reader.hapindices (Reader.on_chrom chrom st) = Reader.hapindices st
  /\ Reader.oldhapindices (Reader.on_chrom chrom st) = Reader.oldhapindices st.
Proof.
  unfold Reader.on_chrom.
  destruct (Reader.chrom_differs chrom (Reader.oldchrom st)); split;
    reflexivity.
Qed.

Lemma pairwise_agree_snoc (haps : list (list Z)) (x : list Z) :
  pairwise_agree haps -> Py.any_differ x (last haps []) = false ->
  pairwise_agree (haps ++ [x]).
Proof.
  induction haps as [|a haps IH]; intros Hagree Hx.
  - cbn. split; exact I.
  - destruct haps as [|b haps].
    + cbn. cbn in Hx. repeat split. exact Hx.
    + destruct Hagree as [Hab Hrest]. split; [exact Hab|].
      apply IH; assumption.
Qed.

Lemma any_differ_nil_l (ys : list Z) : Py.any_differ [] ys = false.
Proof. reflexivity. Qed.

Lemma any_differ_nil_r (xs : list Z) : Py.any_differ xs [] = false.
Proof. destruct xs; reflexivity. Qed.

Lemma step_haps (npanel : nat) (st st' : Reader.state) (ln : Reader.line)
  (acc : Z * list (string * list Z)) :
  Reader.step npanel st ln = Ok st' ->
  fst acc = Reader.oldlocindex st -> length (snd acc) = slots st ->
  haps_inv st acc -> haps_inv st' (Reader.locations_step acc ln).
Proof.
  intros H Hold Hslots Hinv.
  destruct ln as [|locindex chrom hapindex thisrho probs].
  - cbn in H. injection H as <-. exact Hinv.
  - apply step_Rec_Ok in H. cbv zeta in H.
    destruct (on_chrom_slots chrom st) as [Hs Ho].
    destruct (on_chrom_haps chrom st) as [Hh Hoh].
    remember (Reader.on_chrom chrom st) as st0 eqn:Hst0. clear Hst0.
    rewrite <- Hs in Hslots. rewrite <- Ho in Hold.
    unfold haps_inv in Hinv. rewrite <- Hh, <- Hoh in Hinv.
    clear Hs Ho Hh Hoh st.
    destruct H as (_ & _ & _ & i & [Hnew|Hsame]).
    + destruct Hnew as (Hne & Hcheck & _ & _ & _ & Hhap & Hohap & _).
      cbn [Reader.locations_step]. rewrite Hold.
      destruct (Z.eqb_spec locindex (Reader.oldlocindex st0)); [contradiction|].
      cbn [negb snd]. right.
      exists (snd acc), chrom, [hapindex].
      split; [reflexivity|]. split; [exact Hhap|].
      rewrite Hohap.
      destruct Hinv as [[Hnil Hh0]|(front & c & lastloc & Hacc & Hh0 & Hoh0 & Hag)].
      * rewrite Hnil, Hh0. split; [reflexivity | exact I].
      * rewrite Hacc, map_app. cbn [map snd]. rewrite last_last, Hh0.
        split; [reflexivity|].
        apply pairwise_agree_snoc; [exact Hag|].
        destruct Hcheck as [Hempty|(old & Hold' & Hdiff)].
        -- rewrite <- Hh0, Hempty. apply any_differ_nil_l.
        -- rewrite Hoh0 in Hold'. injection Hold' as <-.
           rewrite <- Hh0. exact Hdiff.
    + destruct Hsame as (Heq & Hppc & _ & _ & Hhap & Hohap & _).
      cbn [Reader.locations_step]. rewrite Hold.
      destruct (Z.eqb_spec locindex (Reader.oldlocindex st0)); [|contradiction].
      cbn [negb].
      destruct Hinv as [[Hnil _]|(front & c & lastloc & Hacc & Hh0 & Hoh0 & Hag)].
      * rewrite Hnil in Hslots. unfold slots in Hslots. cbn in Hslots. lia.
      * rewrite Hacc, rev_app_distr. cbn [rev app snd]. right.
        exists front, c, (lastloc ++ [hapindex]).
        rewrite rev_involutive.
        split; [reflexivity|]. rewrite Hhap, Hohap, Hh0.
        repeat split; assumption.
Qed.

Lemma loop_haps (npanel : nat) (body : list Reader.line)
  (st st' : Reader.state) (acc : Z * list (string * list Z)) :
  Reader.loop npanel st body = Ok st' ->
  fst acc = Reader.oldlocindex st -> length (snd acc) = slots st ->
  haps_inv st acc ->
  haps_inv st' (fold_left Reader.locations_step body acc).
Proof.
  revert st acc. induction body as [|ln body IH];
    intros st acc H Hold Hslots Hinv; cbn in H.
  - injection H as <-. exact Hinv.
  - bind_inv H.
    destruct (step_slots _ _ _ _ acc Hrun Hold Hslots) as [Hold' Hslots'].
    cbn [fold_left]. apply (IH _ _ H Hold' Hslots').
    apply (step_haps _ _ _ _ _ Hrun Hold Hslots Hinv).
Qed.

(** X5.  Whenever the reader returns, every location but the last has passed
    the test of line 55 against the location before it: the two haplotype
    index lists agree position by position over the shorter of them.  The
    haplotype list the reader is left with is that of the last location. *)
Theorem read_checks_all_but_last_location (npanel : nat)
  (body : list Reader.line) (tbl : Reader.table) :
  Reader.read npanel body = Ok tbl ->
  pairwise_agree (removelast (map snd (Reader.locations body)))
  /\ Reader.t_hapindices tbl = last (map snd (Reader.locations body)) [].
Proof.
  unfold Reader.read. intros H. bind_inv H. injection H as <-. cbn.
  assert (Hinv : haps_inv a (fold_left Reader.locations_step body ((-1)%Z, []))).
  { apply (loop_haps _ _ _ _ _ Hrun); try reflexivity.
    left. split; reflexivity. }
  unfold Reader.locations.
  destruct Hinv as [[-> ->]|(front & c & lastloc & -> & -> & _ & Hag)].
  - split; [exact I | reflexivity].
  - rewrite map_app. cbn [map snd]. rewrite removelast_last, last_last.
    split; [exact Hag | reflexivity].
Qed.

Lemma read_checks_all_but_last_location_witness :
  pairwise_agree (removelast (map snd (Reader.locations two_chromosomes)))
  /\ [0%Z] = last (map snd (Reader.locations two_chromosomes)) [].
Proof.
  exact (read_checks_all_but_last_location 2 two_chromosomes _
           read_two_chromosomes).
Defined.

Lemma step_oldchrom (npanel : nat) (st st' : Reader.state) (locindex : Z)
  (chrom : string) (hapindex : Z) (thisrho : R) (probs : list R) :
  Reader.step npanel st (Reader.Rec locindex chrom hapindex thisrho probs)
  = Ok st' ->
  Reader.oldchrom st' = Some chrom /\ Reader.oldlocindex st' = locindex.
Proof.
  intros H. split.
  - cbn [Reader.step] in H. bind_inv H. rename a into st1.
    assert (H0 : Reader.oldchrom (Reader.on_chrom chrom st) = Some chrom).
    { unfold Reader.on_chrom, Reader.chrom_differs.
      destruct (Reader.oldchrom st) as [c|] eqn:Hc; [|reflexivity].
      destruct (String.eqb_spec chrom c) as [->|Hne]; cbn; congruence. }
    assert (H1 : Reader.oldchrom st1 = Some chrom).
    { unfold Reader.on_location in Hrun.
      destruct (negb _); [|congruence].
      bind_inv Hrun. injection Hrun as <-. exact H0. }
    unfold Reader.on_record in H. destruct (negb _); [discriminate H|].
    destruct (length (Reader.panelprobschrom st1)); [discriminate H|].
    bind_inv H. bind_inv H. injection H as <-. exact H1.
  - apply step_Rec_Ok in H. cbv zeta in H.
    destruct H as (_ & _ & _ & i & [Hnew|Hsame]).
    + apply Hnew.
    + destruct Hsame as (-> & _ & _ & _ & _ & _ & ->). reflexivity.
Qed.

(** X6.  Two successive records with one location index but different
    chromosomes stop the reader with [IndexError]: the chromosome change
    empties the per-chromosome lists and no new location is opened. *)
Theorem read_chromosome_change_within_location (npanel : nat)
  (pre rest : list Reader.line) (tbl : Reader.table) (locindex : Z)
  (c1 c2 : string) (h1 h2 : Z) (r1 r2 : R) (p1 p2 : list R) :
  Reader.read npanel (pre ++ [Reader.Rec locindex c1 h1 r1 p1]) = Ok tbl ->
  c1 <> c2 -> length p2 = npanel ->
  Reader.read npanel
    (pre ++ Reader.Rec locindex c1 h1 r1 p1
         :: Reader.Rec locindex c2 h2 r2 p2 :: rest)
  = Raise IndexError.
Proof.
  unfold Reader.read. intros H Hne Hlen. bind_inv H. clear H.
  rename a into st. rewrite loop_app in Hrun. bind_inv Hrun.
  cbn [Reader.loop] in Hrun. bind_inv Hrun. injection Hrun as <-.
  destruct (step_oldchrom _ _ _ _ _ _ _ _ Hrun1) as [Hchrom Hloc].
  change (pre ++ Reader.Rec locindex c1 h1 r1 p1
              :: Reader.Rec locindex c2 h2 r2 p2 :: rest)
    with (pre ++ [Reader.Rec locindex c1 h1 r1 p1]
              ++ Reader.Rec locindex c2 h2 r2 p2 :: rest).
  rewrite app_assoc, loop_app, loop_app, Hrun0. cbn [bind Reader.loop].
  rewrite Hrun1.
  cbn [bind Reader.step]. unfold Reader.on_chrom. rewrite Hchrom.
  unfold Reader.chrom_differs.
  destruct (String.eqb_spec c2 c1) as [Heq|_]; [congruence|].
  cbn [negb]. unfold Reader.on_location. cbn [Reader.oldlocindex].
  rewrite Hloc, Z.eqb_refl. cbn [negb bind].
  unfold Reader.on_record. rewrite Hlen, Nat.eqb_refl. reflexivity.
Qed.

Lemma read_chromosome_change_within_location_witness :
  Reader.read 2
    ([] ++ Reader.Rec 0 "chr1" 0 0.01 [0.9; 0.1]
        :: Reader.Rec 0 "chr2" 0 0.02 [0.8; 0.2] :: [])
  = Raise IndexError.
Proof.
  apply (read_chromosome_change_within_location 2 [] []
           (Reader.mkTable [[[0.9; 0.1]]] [[0.01]] [0%Z])).
  - reflexivity.
  - discriminate.
  - reflexivity.
Defined.

(** ** The clusterer's reshaping and its matrix *)

Lemma ceil_step (n h : nat) :
  (0 < n)%nat -> (0 < h)%nat ->
  ((n + h - 1) / h = S ((n - h + h - 1) / h))%nat.
Proof.
  intros Hn Hh.
  replace (n + h - 1)%nat with ((n - 1) + 1 * h)%nat by lia.
  rewrite Nat.div_add by lia.
  destruct (Nat.le_gt_cases h n) as [Hle|Hlt].
  - replace (n - h + h - 1)%nat with (n - 1)%nat by lia. lia.
  - replace (n - h + h - 1)%nat with (h - 1)%nat by lia.
    rewrite !Nat.div_small by lia. lia.
Qed.

Lemma chunks_nil {A : Type} (h : nat) : (0 < h)%nat -> chunks h (@nil A) = [].
Proof.
  intros Hh. unfold chunks. cbn [length].
  replace (0 + h - 1)%nat with (h - 1)%nat by lia.
  rewrite Nat.div_small by lia. reflexivity.
Qed.

Lemma chunks_cons {A : Type} (h : nat) (l : list A) :
  (0 < h)%nat -> l <> [] ->
  chunks h l = firstn h l :: chunks h (skipn h l).
Proof.
  intros Hh Hl. unfold chunks.
  assert (Hn : (0 < length l)%nat) by (destruct l; [congruence | cbn; lia]).
  rewrite (ceil_step _ _ Hn Hh).
  rewrite length_skipn. cbn [seq map]. f_equal.
  rewrite <- seq_shift, !map_map. apply map_ext. intros k.
  unfold Py.slice_len. cbn [Nat.mul].
  rewrite (Nat.add_comm h (k * h)), <- skipn_skipn. reflexivity.
Qed.

Lemma chunks_concat {A : Type} (h : nat) (l : list A) :
  (0 < h)%nat ->
  concat (chunks h l) = l
  /\ Forall (fun row => (1 <= length row <= h)%nat) (chunks h l).
Proof.
  intros Hh. remember (length l) as m eqn:Hm.
  assert (Hle : (length l <= m)%nat) by lia. clear Hm. revert l Hle.
  induction m as [|m IH]; intros l Hle.
  - destruct l; [|cbn in Hle; lia]. rewrite chunks_nil by assumption.
    split; [reflexivity | constructor].
  - destruct l as [|x l].
    + rewrite chunks_nil by assumption. split; [reflexivity | constructor].
    + rewrite chunks_cons by (assumption || discriminate).
      destruct (IH (skipn h (x :: l))) as [Hcat Hrows].
      { rewrite length_skipn. cbn [length] in *. lia. }
      cbn [concat]. rewrite Hcat. split; [apply firstn_skipn|].
      constructor; [|exact Hrows].
      rewrite length_firstn. cbn [length]. lia.
Qed.

Lemma chunks_full_rows {A : Type} (h n : nat) (l : list A) :
  (0 < h)%nat -> length l = (n * h)%nat ->
  Forall (fun row => length row = h) (chunks h l).
Proof.
  intros Hh. revert l. induction n as [|n IH]; intros l Hlen.
  - destruct l; [|discriminate Hlen]. rewrite chunks_nil by assumption.
    constructor.
  - assert (l <> []) by (destruct l; [cbn in Hlen; lia | discriminate]).
    rewrite chunks_cons by assumption. constructor.
    + rewrite length_firstn. cbn in Hlen. lia.
    + apply IH. rewrite length_skipn. cbn in Hlen. lia.
Qed.

(** What a run of [cluster] to its return has computed on the way. *)
Lemma cluster_Ok (fit : list (list R) -> Z -> result (list (list R) * list Z))
  (panelprobs : list (list (list R))) (nanc : Z)
  (labelmatrix : list (list Z)) (param : list (list R)) :
  cluster fit panelprobs nanc = Ok (labelmatrix, param) ->
  exists whichdrop means_ labels,
    (0 < length (hd [] panelprobs))%nat /\
    Np.argmax (Np.sum0 (concat panelprobs)) = Ok whichdrop /\
    fit (map (Np.delete_col whichdrop) (concat panelprobs)) nanc
    = Ok (means_, labels) /\
    labelmatrix = chunks (length (hd [] panelprobs)) labels /\
    Np.insert1 means_ whichdrop (map (fun x => 1 - Py.fsum x) means_)
    = Ok param.
Proof.
  unfold cluster. intros H.
  bind_inv H. bind_inv H. bind_inv H. bind_inv H.
  destruct a2 as [means_ labels].
  bind_inv H. bind_inv H. injection H as <- <-.
  destruct panelprobs as [|first rest]; [discriminate Hrun|].
  injection Hrun as <-. apply array2_Ok in Hrun0. subst a0.
  exists a1, means_, labels. cbn [hd].
  unfold Py.range_step in Hrun3.
  destruct (length first) as [|h] eqn:Hh; [discriminate Hrun3|].
  injection Hrun3 as <-.
  split; [lia|]. split; [assumption|]. split; [assumption|].
  split; [reflexivity | assumption].
Qed.

(** X7.  The reshaping of line 91 loses nothing: the rows of the label
    matrix, one after the other, are the labels the fit predicted, and
    every row holds between one and [nhaps] labels. *)
Theorem cluster_reshape_lossless
  (fit : list (list R) -> Z -> result (list (list R) * list Z))
  (panelprobs : list (list (list R))) (nanc : Z)
  (labelmatrix : list (list Z)) (param : list (list R)) :
  cluster fit panelprobs nanc = Ok (labelmatrix, param) ->
  exists transformed means_,
    fit transformed nanc = Ok (means_, concat labelmatrix)
    /\ Forall (fun row =>
                 (1 <= length row <= length (hd [] panelprobs))%nat)
              labelmatrix.
Proof.
  intros H. apply cluster_Ok in H.
  destruct H as (whichdrop & means_ & labels & Hh & _ & Hfit & -> & _).
  destruct (chunks_concat (length (hd [] panelprobs)) labels Hh) as [Hcat Hrows].
  eexists _, means_. rewrite Hcat. split; [exact Hfit | exact Hrows].
Qed.

Lemma cluster_reshape_lossless_witness :
  exists transformed means_,
    fixed_fit transformed 1 = Ok (means_, concat [[0%Z]])
    /\ Forall (fun row =>
                 (1 <= length row <= length (hd [] small_table))%nat)
              [[0%Z]].
Proof.
  exact (cluster_reshape_lossless fixed_fit small_table 1 _ _
           cluster_fixed_fit).
Defined.

Lemma argmax_from_spec (v pre : list R) (best : nat) :
  (best < length pre)%nat ->
  (forall k, (k < length pre)%nat -> nth k pre 0 <= nth best pre 0) ->
  (forall k, (k < best)%nat -> nth k pre 0 < nth best pre 0) ->
  let j := Np.argmax_from best (nth best pre 0) (length pre) v in
  (j < length (pre ++ v))%nat /\
  (forall k, (k < length (pre ++ v))%nat ->
             nth k (pre ++ v) 0 <= nth j (pre ++ v) 0) /\
  (forall k, (k < j)%nat -> nth k (pre ++ v) 0 < nth j (pre ++ v) 0).
Proof.
  revert pre best. induction v as [|x v IH]; intros pre best Hbest Hmax Hfirst.
  - cbn. rewrite app_nil_r. repeat split; assumption.
  - cbn [Np.argmax_from].
    assert (Hlen : length (pre ++ [x]) = S (length pre))
      by (rewrite length_app; cbn; lia).
    assert (Hx : nth (length pre) (pre ++ [x]) 0 = x)
      by (rewrite app_nth2, Nat.sub_diag by lia; reflexivity).
    assert (Hpre : forall k, (k < length pre)%nat ->
                             nth k (pre ++ [x]) 0 = nth k pre 0)
      by (intros k Hk; apply app_nth1; assumption).
    replace (pre ++ x :: v) with ((pre ++ [x]) ++ v)
      by (rewrite <- app_assoc; reflexivity).
    destruct (Rlt_dec (nth best pre 0) x) as [Hlt|Hge].
    + assert (IH' := IH (pre ++ [x]) (length pre)). cbv zeta in IH'.
      rewrite Hx, Hlen in IH'. apply IH'.
      * lia.
      * intros k Hk.
        destruct (Nat.eq_dec k (length pre)) as [->|Hne].
        -- rewrite Hx. lra.
        -- rewrite Hpre by lia. specialize (Hmax k ltac:(lia)). lra.
      * intros k Hk. rewrite Hpre by lia.
        specialize (Hmax k ltac:(lia)). lra.
    + assert (IH' := IH (pre ++ [x]) best). cbv zeta in IH'.
      rewrite (Hpre best Hbest), Hlen in IH'. apply IH'.
      * lia.
      * intros k Hk.
        destruct (Nat.eq_dec k (length pre)) as [->|Hne].
        -- rewrite Hx. lra.
        -- rewrite Hpre by lia. apply Hmax. lia.
      * intros k Hk. rewrite !Hpre by lia. apply Hfirst. assumption.
Qed.

Lemma argmax_spec (v : list R) (j : nat) :
  Np.argmax v = Ok j ->
  (j < length v)%nat /\
  (forall k, (k < length v)%nat -> nth k v 0 <= nth j v 0) /\
  (forall k, (k < j)%nat -> nth k v 0 < nth j v 0).
Proof.
  destruct v as [|x v]; [discriminate|]. cbn [Np.argmax]. intros [= <-].
  apply (argmax_from_spec v [x] 0%nat).
  - cbn. lia.
  - intros k Hk. cbn in Hk. assert (k = 0%nat) as -> by lia. cbn. lra.
  - intros k Hk. lia.
Qed.

Lemma delete_insert_col (j : nat) (row : list R) (v : R) (row' : list R) :
  Np.insert_col j row v = Ok row' ->
  Np.delete_col j row' = row /\ nth j row' 0 = v.
Proof.
  unfold Np.insert_col. destruct (Nat.leb_spec j (length row)); [|discriminate].
  intros [= <-]. unfold Np.delete_col.
  assert (Hj : length (firstn j row) = j) by (rewrite length_firstn; lia).
  destruct (split_at_length (firstn j row) v (skipn j row)) as [H1 H2].
  rewrite Hj in H1, H2. split.
  - rewrite H1, H2. apply firstn_skipn.
  - rewrite app_nth2, Hj, Nat.sub_diag by lia. reflexivity.
Qed.

(** X8.  The matrix [cluster] returns is the fitted means with one column
    put back: deleting column [whichdrop] again gives the means, the column
    itself holds [1 - sum(mean)], and [whichdrop] is the first column of
    largest sum over the pooled vectors. *)
Theorem cluster_param_is_means_with_column
  (fit : list (list R) -> Z -> result (list (list R) * list Z))
  (panelprobs : list (list (list R))) (nanc : Z)
  (labelmatrix : list (list Z)) (param : list (list R)) :
  cluster fit panelprobs nanc = Ok (labelmatrix, param) ->
  let sums := Np.sum0 (concat panelprobs) in
  exists whichdrop means_ labels,
    fit (map (Np.delete_col whichdrop) (concat panelprobs)) nanc
    = Ok (means_, labels) /\
    map (Np.delete_col whichdrop) param = means_ /\
    map (fun row => nth whichdrop row 0) param
    = map (fun x => 1 - Py.fsum x) means_ /\
    (whichdrop < length sums)%nat /\
    (forall k, (k < length sums)%nat -> nth k sums 0 <= nth whichdrop sums 0) /\
    (forall k, (k < whichdrop)%nat -> nth k sums 0 < nth whichdrop sums 0).
Proof.
  intros H sums. apply cluster_Ok in H.
  destruct H as (whichdrop & means_ & labels & _ & Harg & Hfit & _ & Hins).
  exists whichdrop, means_, labels. split; [exact Hfit|].
  apply argmax_spec in Harg. destruct Harg as (Hj & Hmax & Hfirst).
  apply insert1_rows in Hins.
  assert (Hrows : map (Np.delete_col whichdrop) param = means_
                  /\ map (fun row => nth whichdrop row 0) param
                     = map (fun x => 1 - Py.fsum x) means_).
  { clear -Hins. induction Hins as [|x row means_ param Hrow _ [IH1 IH2]].
    - split; reflexivity.
    - apply delete_insert_col in Hrow. destruct Hrow as [Hdel Hnth].
      cbn [map]. rewrite Hdel, Hnth, IH1, IH2. split; reflexivity. }
  destruct Hrows as [H1 H2]. repeat split; assumption.
Qed.

Lemma cluster_param_is_means_with_column_witness :
  let sums := Np.sum0 (concat small_table) in
  exists whichdrop means_ labels,
    fixed_fit (map (Np.delete_col whichdrop) (concat small_table)) 1
    = Ok (means_, labels) /\
    map (Np.delete_col whichdrop) [[0.2; 1 - Py.fsum [0.2; 0.3]; 0.3]]
    = means_ /\
    map (fun row => nth whichdrop row 0) [[0.2; 1 - Py.fsum [0.2; 0.3]; 0.3]]
    = map (fun x => 1 - Py.fsum x) means_ /\
    (whichdrop < length sums)%nat /\
    (forall k, (k < length sums)%nat -> nth k sums 0 <= nth whichdrop sums 0) /\
    (forall k, (k < whichdrop)%nat -> nth k sums 0 < nth whichdrop sums 0).
Proof.
  exact (cluster_param_is_means_with_column fixed_fit small_table 1 _ _
           cluster_fixed_fit).
Defined.

(** ** The reader's table is one the clusterer accepts *)

Lemma read_table_inv (npanel : nat) (body : list Reader.line)
  (tbl : Reader.table) :
  Reader.read npanel body = Ok tbl ->
  map (@length _) (Reader.t_rhovals tbl)
  = map (@length _) (Reader.t_panelprobs tbl)
  /\ Forall (location_ok npanel) (Reader.t_panelprobs tbl).
Proof.
  unfold Reader.read. intros H. bind_inv H. injection H as <-.
  destruct (loop_inv _ _ _ _ Hrun (init_inv npanel)) as (Hout & Hin & Hok).
  cbn. rewrite !map_app, Hout, Hin. split; [reflexivity | exact Hok].
Qed.

Lemma loop_slots_pos (npanel : nat) (body : list Reader.line)
  (st st' : Reader.state) :
  Reader.loop npanel st body = Ok st' ->
  (1 <= slots st)%nat \/ records body <> [] ->
  (1 <= slots st')%nat.
Proof.
  revert st. induction body as [|ln body IH]; intros st H Hpos; cbn in H.
  - injection H as <-. destruct Hpos as [Hpos|Hrec]; [exact Hpos|].
    now contradiction Hrec.
  - bind_inv H. apply (IH _ H).
    destruct ln as [|locindex chrom hapindex thisrho probs].
    + cbn in Hrun. injection Hrun as <-. exact Hpos.
    + left. apply step_Rec_Ok in Hrun. cbv zeta in Hrun.
      destruct Hrun as (_ & _ & _ & i & [Hnew|Hsame]).
      * destruct Hnew as (_ & _ & _ & Happ & _).
        apply append_at_length in Happ. unfold slots.
        rewrite Happ, length_app. cbn. lia.
      * destruct Hsame as (_ & Hi & Happ & _).
        apply append_at_length in Happ. unfold slots. lia.
Qed.

(** X9.  The reader and the clusterer fit together: on a body with at least
    one record that the reader accepts, [cluster] runs to its return for
    every fit that returns means of one entry per kept panel.  None of the
    array operations of lines 77-95 can fail on the reader's table. *)
Theorem read_then_cluster_runs
  (fit : list (list R) -> Z -> result (list (list R) * list Z))
  (npanel : nat) (body : list Reader.line) (tbl : Reader.table) (nanc : Z) :
  Reader.read (S npanel) body = Ok tbl ->
  records body <> [] ->
  (forall transformed, exists means_ labels,
      fit transformed nanc = Ok (means_, labels) /\
      Forall (fun x => length x = npanel) means_) ->
  exists labelmatrix param,
    cluster fit (Reader.t_panelprobs tbl) nanc = Ok (labelmatrix, param).
Proof.
  intros Hread Hrec Hfit.
  destruct (read_table_inv _ _ _ Hread) as [_ Hok].
  assert (Hnloc : (1 <= length (Reader.t_panelprobs tbl))%nat).
  { unfold Reader.read in Hread. bind_inv Hread. injection Hread as <-.
    cbn. rewrite length_app.
    apply (loop_slots_pos _ _ _ _ Hrun). right. exact Hrec. }
  destruct (Reader.t_panelprobs tbl) as [|first rest]; [cbn in Hnloc; lia|].
  apply (cluster_runs fit first rest nanc npanel).
  - apply Forall_cons_iff in Hok. apply Hok.
  - apply Forall_concat. eapply Forall_impl; [|exact Hok].
    intros location [_ Hloc]. exact Hloc.
  - exact Hfit.
Qed.

Lemma read_then_cluster_runs_witness :
  exists labelmatrix param,
    cluster (fun _ _ => Ok ([[0.5]], [0; 0; 0]%Z))
            [[[0.9; 0.1]]; [[0.8; 0.2]]; [[0.3; 0.7]]] 1
    = Ok (labelmatrix, param).
Proof.
  apply (read_then_cluster_runs (fun _ _ => Ok ([[0.5]], [0; 0; 0]%Z))
           1 two_chromosomes _ 1 read_two_chromosomes).
  - discriminate.
  - intros transformed. eexists _, _. split; [reflexivity|].
    repeat constructor.
Defined.

(** ** How [make_rho] ends *)

Lemma mapM_Raise {A B : Type} (f : A -> result B) (l : list A) (e : exn) :
  (forall a, In a l -> (exists b, f a = Ok b) \/ f a = Raise e) ->
  (exists a, In a l /\ f a = Raise e) ->
  mapM f l = Raise e.
Proof.
  induction l as [|a l IH]; intros Hall (a0 & Hin & Ha0).
  - destruct Hin.
  - cbn. destruct (Hall a (or_introl eq_refl)) as [[b Hb]|Hr].
    + rewrite Hb. cbn. rewrite IH; [reflexivity | |].
      * intros a' Ha'. apply Hall. now right.
      * destruct Hin as [->|Hin]; [congruence|]. exists a0. now split.
    + rewrite Hr. reflexivity.
Qed.

Lemma mapM_length {A B : Type} (f : A -> result B) (l : list A) (bs : list B) :
  mapM f l = Ok bs -> length bs = length l.
Proof.
  intros H. apply mapM_Ok_Forall2 in H.
  induction H; cbn; [reflexivity | congruence].
Qed.

Lemma labelled_values_empty (labels : list Z) (rho_vec : list R) (i : Z) :
  length labels = length rho_vec ->
  (labelled_values labels rho_vec i = [] <-> ~ In i labels).
Proof.
  intros Hlen.
  pose proof (labelled_values_length labels rho_vec i Hlen) as Hcount.
  split.
  - intros Hnil Hin. rewrite Hnil in Hcount. cbn in Hcount.
    apply (count_occ_In Z.eq_dec) in Hin. lia.
  - intros Hnot. apply (count_occ_not_In Z.eq_dec) in Hnot.
    rewrite Hnot in Hcount.
    destruct (labelled_values labels rho_vec i); [reflexivity | discriminate].
Qed.

(** The body of the loop of line 108 for one component. *)
Lemma make_rho_component (labels : list Z) (rho_vec : list R) (i : Z) :
  length labels = length rho_vec ->
  let rhoi_vec :=
    map (fun index => nth index rho_vec 0)
        (filter (fun index => (nth index labels (-1) =? i)%Z)
                (seq 0 (length labels))) in
  (if (length rhoi_vec =? 0)%nat then Raise ZeroDivisionError
   else Ok (Py.fsum rhoi_vec / INR (length rhoi_vec)))
  = if in_dec Z.eq_dec i labels
    then Ok (labelled_mean labels rho_vec i)
    else Raise ZeroDivisionError.
Proof.
  intros Hlen. cbv zeta. rewrite (index_loop_labelled _ _ i Hlen).
  pose proof (labelled_values_length labels rho_vec i Hlen) as Hcount.
  pose proof (labelled_values_empty labels rho_vec i Hlen) as Hempty.
  destruct (in_dec Z.eq_dec i labels) as [Hin|Hnot].
  - destruct (Nat.eqb_spec (length (labelled_values labels rho_vec i)) 0)
      as [H0|_].
    + apply length_zero_iff_nil in H0. apply Hempty in H0. contradiction.
    + unfold labelled_mean. rewrite Hcount. reflexivity.
  - apply Hempty in Hnot. rewrite Hnot. reflexivity.
Qed.

Lemma Forall2_In_l {A B : Type} (P : A -> B -> Prop) (l : list A)
  (l' : list B) (a : A) :
  Forall2 P l l' -> In a l -> exists b, In b l' /\ P a b.
Proof.
  induction 1 as [|x y l l' Hxy _ IH]; intros Hin.
  - destruct Hin.
  - destruct Hin as [->|Hin].
    + exists y. split; [now left | exact Hxy].
    + destruct (IH Hin) as (b & Hb & Hab). exists b. split; [now right | exact Hab].
Qed.

Lemma make_rho_Ok_lengths (label_matrix : list (list Z))
  (rho_matrix : list (list R)) (nanc : Z) (rho : list R) :
  make_rho label_matrix rho_matrix nanc = Ok rho ->
  length (concat label_matrix) = length (concat rho_matrix).
Proof.
  unfold make_rho.
  destruct (Nat.eqb_spec (length (concat label_matrix))
                         (length (concat rho_matrix))) as [Hlen|Hlen];
    cbn [negb]; [intros _; exact Hlen | discriminate].
Qed.

(** X10.  How [make_rho] ends.  Tables of different flattened length stop it
    with the diagnostic of line 105; with equal lengths, a component of
    [0 .. nanc-1] that labels no pair stops it with [ZeroDivisionError];
    and when it returns, the lengths are equal, every component labels some
    pair and there is one rate per component. *)
Theorem make_rho_outcome (label_matrix : list (list Z))
  (rho_matrix : list (list R)) (nanc : Z) :
  let labels := concat label_matrix in
  let rho_vec := concat rho_matrix in
  (length labels <> length rho_vec ->
   make_rho label_matrix rho_matrix nanc = Raise (SystemExit msg_rho))
  /\ (length labels = length rho_vec ->
      (exists i, (0 <= i < nanc)%Z /\ ~ In i labels) ->
      make_rho label_matrix rho_matrix nanc = Raise ZeroDivisionError)
  /\ (forall rho,
        make_rho label_matrix rho_matrix nanc = Ok rho ->
        length labels = length rho_vec
        /\ (forall i, (0 <= i < nanc)%Z -> In i labels)
        /\ length rho = Z.to_nat nanc).
Proof.
  cbv zeta. unfold make_rho.
  destruct (Nat.eqb_spec (length (concat label_matrix))
                         (length (concat rho_matrix))) as [Hlen|Hlen];
    cbn [negb].
  - split; [intros Hne; contradiction|]. split.
    + intros _ (i & Hi & Hnot). apply mapM_Raise.
      * intros j _. rewrite (make_rho_component _ _ j Hlen).
        destruct (in_dec Z.eq_dec j (concat label_matrix));
          [left; eexists; reflexivity | now right].
      * exists i. split; [apply range_In; exact Hi|].
        rewrite (make_rho_component _ _ i Hlen).
        destruct (in_dec Z.eq_dec i (concat label_matrix));
          [contradiction | reflexivity].
    + intros rho H. split; [exact Hlen|]. split.
      * intros i Hi. apply range_In in Hi. apply mapM_Ok_Forall2 in H.
        destruct (Forall2_In_l _ _ _ _ H Hi) as (r & _ & Hr).
        rewrite (make_rho_component _ _ i Hlen) in Hr.
        destruct (in_dec Z.eq_dec i (concat label_matrix));
          [assumption | discriminate Hr].
      * apply mapM_length in H. rewrite H. unfold Py.range.
        rewrite length_map, length_seq. reflexivity.
  - split; [reflexivity|]. split; [intros Heq; contradiction|].
    intros rho H. discriminate H.
Qed.

Lemma make_rho_outcome_witness :
  make_rho [[0; 0]; [0; 0]]%Z [[0.1; 0.1]; [0.3; 0.5]] 2
  = Raise ZeroDivisionError.
Proof.
  apply (proj1 (proj2 (make_rho_outcome [[0; 0]; [0; 0]]%Z
                         [[0.1; 0.1]; [0.3; 0.5]] 2))).
  - reflexivity.
  - exists 1%Z. split; [lia|]. cbn. intros [H|[H|[H|[H|[]]]]]; discriminate H.
Defined.

Lemma fsum_bounds (l : list R) (lo hi : R) :
  Forall (fun r => lo <= r <= hi) l ->
  INR (length l) * lo <= Py.fsum l <= INR (length l) * hi.
Proof.
  induction 1 as [|x l Hx _ IH].
  - rewrite fsum_nil. cbn. lra.
  - rewrite fsum_cons. change (length (x :: l)) with (S (length l)).
    rewrite S_INR. lra.
Qed.

Lemma labelled_values_In (labels : list Z) (rho_vec : list R) (i : Z) (r : R) :
  In r (labelled_values labels rho_vec i) -> In r rho_vec.
Proof.
  unfold labelled_values. intros H. apply in_map_iff in H.
  destruct H as ([l r'] & <- & Hin). apply filter_In in Hin.
  destruct Hin as [Hin _]. apply in_combine_r in Hin. exact Hin.
Qed.

(** X11.  Every switch rate [make_rho] returns lies between any two bounds
    that hold for all recombination values of the table: a mean of values
    in [lo, hi] is in [lo, hi]. *)
Theorem make_rho_within_bounds (label_matrix : list (list Z))
  (rho_matrix : list (list R)) (nanc : Z) (rho : list R) (lo hi : R) :
  make_rho label_matrix rho_matrix nanc = Ok rho ->
  Forall (fun r => lo <= r <= hi) (concat rho_matrix) ->
  Forall (fun r => lo <= r <= hi) rho.
Proof.
  intros H Hbounds.
  pose proof (make_rho_Ok_lengths _ _ _ _ H) as Hlen.
  unfold make_rho in H. rewrite Hlen, Nat.eqb_refl in H. cbn [negb] in H.
  apply mapM_Ok_Forall2 in H.
  induction H as [|i r comps rs Hi _ IH]; constructor; [|exact IH].
  rewrite <- Hlen in Hi. rewrite (make_rho_component _ _ i Hlen) in Hi.
  destruct (in_dec Z.eq_dec i (concat label_matrix)) as [Hin|];
    [|discriminate Hi].
  injection Hi as <-. unfold labelled_mean.
  pose proof (labelled_values_length _ (concat rho_matrix) i Hlen) as Hcount.
  rewrite <- Hcount.
  assert (Hpos : 0 < INR (length (labelled_values (concat label_matrix)
                                    (concat rho_matrix) i))).
  { apply lt_0_INR. rewrite Hcount.
    apply (count_occ_In Z.eq_dec) in Hin. lia. }
  assert (Hvals : Forall (fun r => lo <= r <= hi)
                    (labelled_values (concat label_matrix)
                       (concat rho_matrix) i)).
  { apply Forall_forall. intros r Hr. apply labelled_values_In in Hr.
    rewrite Forall_forall in Hbounds. apply Hbounds. exact Hr. }
  apply fsum_bounds in Hvals.
  remember (INR (length (labelled_values (concat label_matrix)
                           (concat rho_matrix) i))) as n.
  remember (Py.fsum (labelled_values (concat label_matrix)
                       (concat rho_matrix) i)) as s.
  split.
  - apply Rmult_le_reg_r with n; [assumption|].
    unfold Rdiv. rewrite Rmult_assoc, Rinv_l by lra. lra.
  - apply Rmult_le_reg_r with n; [assumption|].
    unfold Rdiv. rewrite Rmult_assoc, Rinv_l by lra. lra.
Qed.

Lemma make_rho_within_bounds_witness :
  Forall (fun r => 0 <= r <= 1)
    [Py.fsum [0.2; 0.8] / INR 2; Py.fsum [0.4; 0.6] / INR 2].
Proof.
  apply (make_rho_within_bounds [[0; 1]; [1; 0]]%Z [[0.2; 0.4]; [0.6; 0.8]] 2).
  - reflexivity.
  - cbn. repeat constructor; lra.
Defined.

(** ** The dictionary and the extremes of [autoc] *)

Lemma autoc_unfold (labelmatrix : list (list Z)) (nanc lag : Z) :
  (lag + 2 <= Z.of_nat (length labelmatrix))%Z ->
  labelmatrix <> [] ->
  autoc labelmatrix nanc lag
  = bind (foldM (fun st p =>
                   autoc_pair labelmatrix lag (length (hd [] labelmatrix))
                              st (fst p) (snd p))
                (pairs nanc) ([], -1, 1))
         (fun st => let '(acs, mx, mn) := st in Ok (Diagnostics acs mx mn)).
Proof.
  intros Hlong Hne. unfold autoc.
  destruct (Z.ltb_spec (Z.of_nat (length labelmatrix)) (lag + 2)); [lia|].
  destruct labelmatrix as [|first rest]; [congruence|].
  change (Py.getitem (first :: rest) 0) with (Ok first). cbn [bind hd].
  rewrite nested_loop_pairs. reflexivity.
Qed.

Lemma pair_loop_total (labelmatrix : list (list Z)) (lag : Z) (nhaps : nat)
  (l : list (Z * Z)) (st : dict * R * R) :
  (forall i1 i2, exists ac, coefficient labelmatrix lag nhaps i1 i2 = Ok ac) ->
  exists st',
    foldM (fun st p => autoc_pair labelmatrix lag nhaps st (fst p) (snd p))
          l st = Ok st'.
Proof.
  intros Hcoef. revert st. induction l as [|[i1 i2] l IH]; intros st.
  - exists st. reflexivity.
  - cbn [foldM fst snd]. destruct st as [[acs mx] mn]. unfold autoc_pair at 1.
    destruct (Hcoef i1 i2) as [ac ->]. cbn [bind]. apply IH.
Qed.

Lemma key_eqb_eq (k k' : Z * Z) : key_eqb k k' = true <-> k = k'.
Proof.
  unfold key_eqb. destruct k as [a b], k' as [a' b']. cbn.
  rewrite andb_true_iff, !Z.eqb_eq. split.
  - intros [-> ->]. reflexivity.
  - intros [= -> ->]. split; reflexivity.
Qed.

Lemma dict_set_fresh (d : dict) (k : Z * Z) (v : Np.pyfloat) :
  ~ In k (map fst d) -> dict_set d k v = d ++ [(k, v)].
Proof.
  induction d as [|[k' v'] d IH]; intros Hfresh; cbn.
  - reflexivity.
  - destruct (key_eqb k k') eqn:Heq.
    + apply key_eqb_eq in Heq. subst. exfalso. apply Hfresh. now left.
    + rewrite IH; [reflexivity|]. intros Hin. apply Hfresh. now right.
Qed.

Lemma pair_loop_keys (labelmatrix : list (list Z)) (lag : Z) (nhaps : nat)
  (l : list (Z * Z)) (acs : dict) (mx mn : R) (acs' : dict) (mx' mn' : R) :
  foldM (fun st p => autoc_pair labelmatrix lag nhaps st (fst p) (snd p))
        l (acs, mx, mn) = Ok (acs', mx', mn') ->
  NoDup (map fst acs ++ map (fun p => (snd p, fst p)) l) ->
  map fst acs' = map fst acs ++ map (fun p => (snd p, fst p)) l.
Proof.
  revert acs mx mn. induction l as [|[i1 i2] l IH]; intros acs mx mn H Hnd.
  - cbn in H. injection H as <- _ _. cbn. rewrite app_nil_r. reflexivity.
  - cbn [foldM fst snd] in H. bind_inv H. destruct a as [[acs1 mx1] mn1].
    apply autoc_pair_Ok in Hrun. destruct Hrun as (ac & _ & Hacs & _).
    cbn [map fst snd] in Hnd |- *.
    assert (Hfresh : ~ In (i2, i1) (map fst acs)).
    { apply NoDup_remove_2 in Hnd. intros Hin. apply Hnd.
      apply in_or_app. now left. }
    rewrite (dict_set_fresh _ _ _ Hfresh) in Hacs. subst acs1.
    apply IH in H.
    + rewrite H, map_app, <- app_assoc. reflexivity.
    + rewrite map_app, <- app_assoc. exact Hnd.
Qed.

Lemma NoDup_flat_map {A B : Type} (f : A -> list B) (l : list A) :
  NoDup l -> (forall a, In a l -> NoDup (f a)) ->
  (forall a b x, In a l -> In b l -> In x (f a) -> In x (f b) -> a = b) ->
  NoDup (flat_map f l).
Proof.
  induction 1 as [|a l Hnot Hnd IH]; intros Heach Hdisj; cbn.
  - constructor.
  - apply NoDup_app.
    + apply Heach. now left.
    + apply IH.
      * intros b Hb. apply Heach. now right.
      * intros b c x Hb Hc. apply Hdisj; now right.
    + intros x Hx Hx'. apply in_flat_map in Hx'.
      destruct Hx' as (b & Hb & Hxb).
      assert (a = b) by (apply (Hdisj a b x); auto; [now left | now right]).
      subst. contradiction.
Qed.

Lemma NoDup_range (n : Z) : NoDup (Py.range n).
Proof.
  unfold Py.range. apply NoDup_map_NoDup_ForallPairs; [|apply seq_NoDup].
  intros x y _ _ Heq. lia.
Qed.

Lemma NoDup_pairs_keys (nanc : Z) :
  NoDup (map (fun p : Z * Z => (snd p, fst p)) (pairs nanc)).
Proof.
  apply NoDup_map_NoDup_ForallPairs.
  - intros [a b] [c d] _ _. cbn. intros [= -> ->]. reflexivity.
  - unfold pairs. apply NoDup_flat_map.
    + apply NoDup_range.
    + intros i1 _. apply NoDup_map_NoDup_ForallPairs; [|apply NoDup_range].
      intros x y _ _ [= ->]. reflexivity.
    + intros a b [x1 x2] _ _ Ha Hb. apply in_map_iff in Ha, Hb.
      destruct Ha as (? & [= <- _] & _). destruct Hb as (? & [= <- _] & _).
      reflexivity.
Qed.

Lemma pairs_count_from (s k : nat) :
  (2 * length (flat_map (fun i1 : Z => map (fun i2 => (i1, i2))
                                           (Py.range (i1 + 1)))
                        (map Z.of_nat (seq s k)))
   = k * (2 * s + k + 1))%nat.
Proof.
  revert s. induction k as [|k IH]; intros s.
  - reflexivity.
  - cbn [seq map flat_map]. rewrite length_app, length_map.
    unfold Py.range at 1. rewrite length_map, length_seq.
    replace (Z.to_nat (Z.of_nat s + 1)) with (S s) by lia.
    specialize (IH (S s)). nia.
Qed.

Lemma pairs_count (nanc : Z) :
  (2 * length (pairs nanc) = Z.to_nat nanc * (Z.to_nat nanc + 1))%nat.
Proof.
  unfold pairs. unfold Py.range at 2. rewrite pairs_count_from. lia.
Qed.

(** X12.  For a lag of at least 1 and a label matrix of at least [lag + 2]
    rows of one length, [autoc] returns its diagnostics for every number of
    components, and the dictionary holds exactly the keys [(i2, i1)] with
    [0 <= i2 <= i1 < nanc], each once, in the order of the two loops:
    [nanc (nanc + 1) / 2] entries. *)
Theorem autoc_dictionary_keys (labelmatrix : list (list Z)) (nanc lag : Z) :
  (1 <= lag)%Z ->
  (lag + 2 <= Z.of_nat (length labelmatrix))%Z ->
  Forall (fun x => length x = length (hd [] labelmatrix)) labelmatrix ->
  exists acs maxcrosscor minautocor,
    autoc labelmatrix nanc lag = Ok (Diagnostics acs maxcrosscor minautocor)
    /\ map fst acs = map (fun p => (snd p, fst p)) (pairs nanc)
    /\ (2 * length acs = Z.to_nat nanc * (Z.to_nat nanc + 1))%nat.
Proof.
  intros Hlag Hlong Hrows.
  assert (Hne : labelmatrix <> []) by (destruct labelmatrix; [cbn in Hlong; lia | discriminate]).
  rewrite (autoc_unfold _ _ _ Hlong Hne).
  destruct (pair_loop_total labelmatrix lag (length (hd [] labelmatrix))
              (pairs nanc) ([], -1, 1)) as [[[acs mx] mn] Hloop].
  { intros i1 i2. apply coefficient_total; assumption. }
  rewrite Hloop. cbn [bind]. exists acs, mx, mn.
  split; [reflexivity|].
  apply pair_loop_keys in Hloop; [|apply NoDup_pairs_keys].
  cbn [map app] in Hloop. split; [exact Hloop|].
  rewrite <- (length_map fst acs), Hloop, length_map.
  apply pairs_count.
Qed.

Lemma autoc_dictionary_keys_witness :
  exists acs maxcrosscor minautocor,
    autoc two_blocks 2 1 = Ok (Diagnostics acs maxcrosscor minautocor)
    /\ map fst acs = map (fun p => (snd p, fst p)) (pairs 2)
    /\ (2 * length acs = Z.to_nat 2 * (Z.to_nat 2 + 1))%nat.
Proof.
  apply (autoc_dictionary_keys two_blocks 2 1).
  - lia.
  - cbn. lia.
  - repeat constructor.
Defined.

Lemma clip_bounds (x : R) : -1 <= Np.clip (-1) 1 x <= 1.
Proof.
  unfold Np.clip, Rmin, Rmax.
  destruct (Rle_dec (-1) x); destruct (Rle_dec 1 _); lra.
Qed.

Lemma coefficient_bounded (labelmatrix : list (list Z)) (lag : Z)
  (nhaps : nat) (i1 i2 : Z) (r : R) :
  coefficient labelmatrix lag nhaps i1 i2 = Ok (Np.Fin r) -> -1 <= r <= 1.
Proof.
  unfold coefficient. intros H. bind_inv H. unfold Np.corrcoef in H.
  destruct (negb _); [discriminate H|].
  destruct (_ <=? 1)%nat; [discriminate H|].
  destruct (Req_dec_T _ 0); [discriminate H|].
  destruct (Req_dec_T _ 0); [discriminate H|].
  injection H as <-. apply clip_bounds.
Qed.

Lemma rint_bounds (x : R) (a b : Z) :
  IZR a <= x <= IZR b -> (a <= Np.rint x <= b)%Z.
Proof.
  intros [Ha Hb]. unfold Np.rint.
  destruct (base_Int_part x) as [Hf1 Hf2].
  assert (Hfa : (a <= Int_part x)%Z).
  { apply Z.lt_succ_r. apply lt_IZR. rewrite succ_IZR. lra. }
  assert (Hfb : (Int_part x <= b)%Z).
  { apply le_IZR. lra. }
  assert (Hup : IZR (Int_part x) < x -> (Int_part x + 1 <= b)%Z).
  { intros Hlt. apply Z.le_succ_l. apply lt_IZR. lra. }
  destruct (Rlt_dec (x - IZR (Int_part x)) (1 / 2)); [lia|].
  destruct (Rlt_dec (1 / 2) (x - IZR (Int_part x))).
  - split; [lia | apply Hup; lra].
  - destruct (Z.even (Int_part x)); [lia|].
    split; [lia | apply Hup; lra].
Qed.

Lemma round3_bounded (ac : Np.pyfloat) (r : R) :
  (forall r0, ac = Np.Fin r0 -> -1 <= r0 <= 1) ->
  Np.round3 ac = Np.Fin r -> -1 <= r <= 1.
Proof.
  intros Hac H. destruct ac as [r0|]; [|discriminate H].
  cbn in H. injection H as <-. specialize (Hac r0 eq_refl).
  destruct (rint_bounds (r0 * 1000) (-1000) 1000) as [Hlo Hhi]; [lra|].
  apply IZR_le in Hlo, Hhi. lra.
Qed.

(** X13.  Every number [autoc] reports lies in [-1, 1]: the maximum
    cross-correlation, the minimum auto-correlation and every value of the
    dictionary that is not [nan]. *)
Theorem autoc_values_bounded (labelmatrix : list (list Z)) (nanc lag : Z)
  (acs : dict) (maxcrosscor minautocor : R) :
  autoc labelmatrix nanc lag = Ok (Diagnostics acs maxcrosscor minautocor) ->
  -1 <= maxcrosscor <= 1
  /\ -1 <= minautocor <= 1
  /\ forall k r, In (k, Np.Fin r) acs -> -1 <= r <= 1.
Proof.
  intros H. apply autoc_Diagnostics in H. apply pair_loop_Ok in H.
  destruct H as (Hent & _ & _ & Hmx & Hmn & _).
  split; [|split].
  - destruct Hmx as [->|(i1 & i2 & _ & Hc)]; [lra|].
    apply coefficient_bounded in Hc. exact Hc.
  - destruct Hmn as [->|(i & Hc)]; [lra|].
    apply coefficient_bounded in Hc. exact Hc.
  - intros k r Hin. destruct (Hent _ _ Hin) as [[]|(ac & Hc & Hr)].
    symmetry in Hr. apply (round3_bounded ac r); [|exact Hr].
    intros r0 ->. apply coefficient_bounded in Hc. exact Hc.
Qed.

Lemma autoc_values_bounded_witness :
  -1 <= - 2 / 3 <= 1
  /\ -1 <= 2 / 3 <= 1
  /\ forall k r,
       In (k, Np.Fin r) [((0, 0)%Z, Np.Fin 0.667);
                         ((0, 1)%Z, Np.Fin (- 0.667));
                         ((1, 1)%Z, Np.Fin 0.667)] ->
       -1 <= r <= 1.
Proof.
  exact (autoc_values_bounded two_blocks 2 1 _ _ _ autoc_two_blocks).
Defined.

(** ** Labels that never change *)

Lemma fsum_constant (l : list R) (c : R) :
  Forall (fun a => a = c) l -> Py.fsum l = INR (length l) * c.
Proof.
  intros H. assert (Hb : Forall (fun a => c <= a <= c) l).
  { eapply Forall_impl; [|exact H]. cbn. intros a ->. lra. }
  apply fsum_bounds in Hb. lra.
Qed.

Lemma cov_constant (x : list R) (c : R) :
  Forall (fun a => a = c) x -> Np.cov x x = 0.
Proof.
  intros H. unfold Np.cov, Np.dot.
  assert (Hzero : Forall (fun a => a = 0) (Np.center x)).
  { unfold Np.center. apply Forall_forall. intros a Ha.
    apply in_map_iff in Ha. destruct Ha as (b & <- & Hb).
    rewrite Forall_forall in H. rewrite (H b Hb).
    unfold Np.mean. rewrite (fsum_constant x c); [|apply Forall_forall; exact H].
    assert (0 < INR (length x)).
    { apply lt_0_INR. destruct x; [destruct Hb | cbn; lia]. }
    field. lra. }
  rewrite (fsum_constant _ 0).
  - unfold Rdiv. rewrite Rmult_0_r, Rmult_0_l. reflexivity.
  - apply Forall_forall. intros a Ha. apply in_map_iff in Ha.
    destruct Ha as ([u w] & <- & Hin). apply in_combine_l in Hin.
    rewrite Forall_forall in Hzero. rewrite (Hzero u Hin). cbn. lra.
Qed.

Lemma corrcoef_constant (x y : list R) (c : R) :
  length x = length y -> Forall (fun a => a = c) x ->
  Np.corrcoef x y = Ok Np.NaN.
Proof.
  intros Hlen Hx. unfold Np.corrcoef. rewrite Hlen, Nat.eqb_refl. cbn [negb].
  destruct (length y <=? 1)%nat; [reflexivity|].
  rewrite (cov_constant x c Hx).
  destruct (Req_dec_T 0 0); [reflexivity | congruence].
Qed.

Lemma columns_all_ones (rows : list (list Z)) (js : list nat) :
  (forall x v, In x rows -> In v x -> v = 0%Z) ->
  Forall (fun a => a = 1%Z) (columns rows js 0).
Proof.
  intros Hzero. unfold columns, column. apply Forall_forall. intros a Ha.
  apply in_flat_map in Ha. destruct Ha as (j & _ & Ha).
  apply in_map_iff in Ha. destruct Ha as (x & <- & Hx).
  assert (Hnth : nth j x 0%Z = 0%Z).
  { destruct (nth_in_or_default j x 0%Z) as [Hin|Hd]; [|exact Hd].
    apply (Hzero x); assumption. }
  rewrite Hnth. reflexivity.
Qed.

(** X14.  When every label is 0 (all that a one-component fit predicts),
    [autoc] with one component reports [nan] for the pair (0, 0) and leaves
    both extremes at their initial values -1.0 and 1.0: the indicator
    vectors are constant, so the coefficient is [0/0]. *)
Theorem autoc_constant_labels (labelmatrix : list (list Z)) (lag : Z) :
  (1 <= lag)%Z ->
  (lag + 2 <= Z.of_nat (length labelmatrix))%Z ->
  Forall (fun x => length x = length (hd [] labelmatrix)) labelmatrix ->
  (forall x v, In x labelmatrix -> In v x -> v = 0%Z) ->
  autoc labelmatrix 1 lag = Ok (Diagnostics [((0, 0)%Z, Np.NaN)] (-1) 1).
Proof.
  intros Hlag Hlong Hrows Hzero.
  assert (Hne : labelmatrix <> [])
    by (destruct labelmatrix; [cbn in Hlong; lia | discriminate]).
  rewrite (autoc_unfold _ _ _ Hlong Hne).
  change (pairs 1) with [(0, 0)%Z]. cbn [foldM fst snd].
  unfold autoc_pair.
  assert (Hcoef : coefficient labelmatrix lag (length (hd [] labelmatrix)) 0 0
                  = Ok Np.NaN).
  { unfold coefficient, vectors. rewrite vectors_loop_total.
    - cbn [bind fst snd app].
      apply (corrcoef_constant _ _ 1).
      + rewrite !length_map, !columns_length.
        rewrite slices_same_length by assumption. reflexivity.
      + apply Forall_forall. intros a Ha. apply in_map_iff in Ha.
        destruct Ha as (z & <- & Hz).
        assert (Hones : Forall (fun a => a = 1%Z)
                          (columns (Py.slice_to labelmatrix (- lag))
                             (seq 0 (length (hd [] labelmatrix))) 0)).
        { apply columns_all_ones. intros x v Hx Hv.
          rewrite slice_to_neg in Hx by assumption.
          apply In_firstn_In in Hx. apply (Hzero x v); assumption. }
        rewrite Forall_forall in Hones. rewrite (Hones z Hz). reflexivity.
    - apply Forall_forall. intros j Hj. apply in_seq in Hj.
      rewrite slice_to_neg by assumption. apply Forall_forall. intros x Hx.
      apply In_firstn_In in Hx. rewrite Forall_forall in Hrows.
      rewrite (Hrows x Hx). lia.
    - apply Forall_forall. intros j Hj. apply in_seq in Hj.
      rewrite slice_from_pos by assumption. apply Forall_forall. intros x Hx.
      apply In_skipn_In in Hx. rewrite Forall_forall in Hrows.
      rewrite (Hrows x Hx). lia. }
  rewrite Hcoef. reflexivity.
Qed.

Lemma autoc_constant_labels_witness :
  autoc [[0]; [0]; [0]]%Z 1 1 = Ok (Diagnostics [((0, 0)%Z, Np.NaN)] (-1) 1).
Proof.
  apply (autoc_constant_labels [[0]; [0]; [0]]%Z 1).
  - lia.
  - cbn. lia.
  - repeat constructor.
  - intros x v [<-|[<-|[<-|[]]]] [<-|[]]; reflexivity.
Defined.

Lemma slices_lag_zero {A : Type} (l : list A) :
  Py.slice_to l (- 0) = [] /\ Py.slice_from l 0 = l.
Proof.
  unfold Py.slice_to, Py.slice_from, Py.slice_bound. cbn [Z.opp Z.ltb Z.compare].
  replace (Z.to_nat (Z.min 0 (Z.of_nat (length l)))) with 0%nat by lia.
  split; reflexivity.
Qed.

(** X15.  A lag of 0 stops [autoc] with [ValueError] on every matrix of at
    least two rows of one length (not zero) and at least one component:
    [labelmatrix[:-0]] is empty while [labelmatrix[0:]] is the whole matrix,
    and [np.corrcoef] cannot stack vectors of different length. *)
Theorem autoc_lag_zero_raises (labelmatrix : list (list Z)) (nanc : Z) :
  (2 <= length labelmatrix)%nat ->
  (1 <= nanc)%Z ->
  (1 <= length (hd [] labelmatrix))%nat ->
  Forall (fun x => length x = length (hd [] labelmatrix)) labelmatrix ->
  autoc labelmatrix nanc 0 = Raise ValueError.
Proof.
  intros Hlong Hnanc Hhaps Hrows.
  assert (Hne : labelmatrix <> [])
    by (destruct labelmatrix; [cbn in Hlong; lia | discriminate]).
  assert (Hl : (0 + 2 <= Z.of_nat (length labelmatrix))%Z) by lia.
  rewrite (autoc_unfold _ nanc 0 Hl Hne).
  assert (Hpairs : exists rest, pairs nanc = (0, 0)%Z :: rest).
  { unfold pairs. unfold Py.range at 2.
    destruct (Z.to_nat nanc) as [|k] eqn:Hk; [lia|].
    cbn [seq map flat_map]. change (Py.range (Z.of_nat 0 + 1)) with [0%Z].
    eexists. reflexivity. }
  destruct Hpairs as [rest ->]. cbn [foldM fst snd].
  unfold autoc_pair at 1. unfold coefficient, vectors.
  destruct (slices_lag_zero labelmatrix) as [-> ->].
  rewrite vectors_loop_total.
  - cbn [bind fst snd app]. unfold Np.corrcoef.
    rewrite !length_map, !columns_length, length_seq.
    cbn [length].
    destruct (Nat.eqb_spec (length (hd [] labelmatrix) * 0)
                           (length (hd [] labelmatrix) * length labelmatrix));
      [nia | reflexivity].
  - apply Forall_forall. intros j _. constructor.
  - apply Forall_forall. intros j Hj. apply in_seq in Hj.
    eapply Forall_impl; [|exact Hrows]. cbn. intros x Hx. lia.
Qed.

Lemma autoc_lag_zero_raises_witness :
  autoc [[0]; [1]]%Z 1 0 = Raise ValueError.
Proof.
  apply (autoc_lag_zero_raises [[0]; [1]]%Z 1).
  - cbn. lia.
  - lia.
  - cbn. lia.
  - repeat constructor.
Defined.

(** ** The script: what it writes and when it stops *)

Lemma loop_comments_only (npanel : nat) (body : list Reader.line)
  (st : Reader.state) :
  records body = [] -> Reader.loop npanel st body = Ok st.
Proof.
  induction body as [|ln body IH]; intros Hrec.
  - reflexivity.
  - destruct ln; [|discriminate Hrec]. cbn. apply IH. exact Hrec.
Qed.

(** X16.  On a panels file whose body holds no record (empty, or comment
    lines only) the script stops with [IndexError] at [panelprobs[0]]
    (line 77), whatever the fit and the number of components. *)
Theorem main_no_record_raises
  (fit : list (list R) -> Z -> result (list (list R) * list Z))
  (nanc nrefhaps : Z) (refpops : list string) (body : list Reader.line) :
  records body = [] ->
  main fit nanc nrefhaps refpops body = Raise IndexError.
Proof.
  intros Hrec. unfold main, Reader.read.
  rewrite (loop_comments_only _ _ _ Hrec). reflexivity.
Qed.

Lemma main_no_record_raises_witness :
  main fixed_fit 2 100 ["A"; "B"]%string [Reader.Comment; Reader.Comment]
  = Raise IndexError.
Proof.
  apply (main_no_record_raises fixed_fit 2 100 ["A"; "B"]%string
           [Reader.Comment; Reader.Comment]).
  reflexivity.
Defined.

Lemma main_Ok
  (fit : list (list R) -> Z -> result (list (list R) * list Z))
  (nanc nrefhaps : Z) (refpops : list string) (body : list Reader.line)
  (m : model_file) :
  main fit nanc nrefhaps refpops body = Ok m ->
  exists tbl labelmatrix,
    Reader.read (length refpops) body = Ok tbl /\
    cluster fit (Reader.t_panelprobs tbl) nanc = Ok (labelmatrix, m_p m) /\
    make_rho labelmatrix (Reader.t_rhovals tbl) nanc = Ok (m_rho m) /\
    autoc labelmatrix nanc 1
    = Ok (Diagnostics (m_acs m) (m_maxcrosscor m) (m_minautocor m)) /\
    nanc <> 0%Z /\
    m_mu m = repeat (1 / IZR nanc) (Z.to_nat nanc) /\
    m_ancestries m = Py.range nanc /\
    m_refpops m = refpops /\ m_T m = 10%Z /\
    m_theta m = theta_rows nanc (length refpops) nrefhaps.
Proof.
  unfold main. intros H. bind_inv H. rename a into tbl.
  bind_inv H. destruct a as [labelmatrix param].
  bind_inv H. bind_inv H. bind_inv H. destruct a1 as [[acs mx] mn].
  bind_inv H. injection H as <-. cbn.
  destruct a0 as [v|acs' mx' mn']; [discriminate Hrun3|].
  injection Hrun3 as -> -> ->.
  destruct (Z.eqb_spec nanc 0) as [Hz|Hnz]; [discriminate Hrun4|].
  injection Hrun4 as <-.
  exists tbl, labelmatrix. repeat split; assumption.
Qed.

Lemma fsum_repeat (c : R) (n : nat) : Py.fsum (repeat c n) = INR n * c.
Proof.
  rewrite (fsum_constant (repeat c n) c), repeat_length; [reflexivity|].
  apply Forall_forall. intros a Ha. apply repeat_spec in Ha. exact Ha.
Qed.

(** X17.  Whenever the script ends normally, the sections it has written
    agree in size: with [K = nanc] (not zero) the file lists K ancestries,
    K weights, K rows of theta and K switch rates, every row of
    probabilities sums to 1, for positive K the weights sum to 1, and the
    dictionary of the comment line holds the keys [(i2, i1)],
    [0 <= i2 <= i1 < K], in loop order. *)
Theorem main_output_consistent
  (fit : list (list R) -> Z -> result (list (list R) * list Z))
  (nanc nrefhaps : Z) (refpops : list string) (body : list Reader.line)
  (m : model_file) :
  main fit nanc nrefhaps refpops body = Ok m ->
  let K := Z.to_nat nanc in
  nanc <> 0%Z
  /\ length (m_ancestries m) = K
  /\ length (m_mu m) = K
  /\ length (m_theta m) = K
  /\ length (m_rho m) = K
  /\ Forall (fun row => Py.fsum row = 1) (m_p m)
  /\ ((0 < nanc)%Z -> Py.fsum (m_mu m) = 1)
  /\ map fst (m_acs m) = map (fun p => (snd p, fst p)) (pairs nanc).
Proof.
  intros H K. apply main_Ok in H.
  destruct H as (tbl & labelmatrix & _ & Hcluster & Hrho & Hautoc & Hnz
                 & Hmu & Hanc & _ & _ & Htheta).
  split; [exact Hnz|].
  split; [rewrite Hanc; unfold Py.range; rewrite length_map, length_seq;
          reflexivity|].
  split; [rewrite Hmu; apply repeat_length|].
  split; [rewrite Htheta; unfold theta_rows, Py.range;
          rewrite !length_map, length_seq; reflexivity|].
  split.
  { unfold make_rho in Hrho. destruct (negb _); [discriminate Hrho|].
    apply mapM_length in Hrho. rewrite Hrho. unfold Py.range.
    rewrite length_map, length_seq. reflexivity. }
  split.
  { apply cluster_param in Hcluster.
    destruct Hcluster as (transformed & means_ & labels & whichdrop & _ & Hrows).
    induction Hrows as [|x row means_ param Hrow _ IH]; constructor.
    - apply insert_col_sum in Hrow. lra.
    - exact IH. }
  split.
  { intros Hpos. rewrite Hmu, fsum_repeat.
    rewrite INR_IZR_INZ, Z2Nat.id by lia.
    assert (0 < IZR nanc) by (apply IZR_lt; exact Hpos).
    field. lra. }
  apply autoc_Diagnostics in Hautoc.
  apply pair_loop_keys in Hautoc; [exact Hautoc | apply NoDup_pairs_keys].
Qed.


Lemma chunks_length_full {A : Type} (h n : nat) (l : list A) :
  (0 < h)%nat -> length l = (n * h)%nat -> length (chunks h l) = n.
Proof.
  intros Hh Hlen. unfold chunks. rewrite !length_map, length_seq, Hlen.
  replace (n * h + h - 1)%nat with (n * h + (h - 1))%nat by lia.
  rewrite Nat.div_add_l by lia. rewrite Nat.div_small by lia. lia.
Qed.





Lemma cluster_three_locations :
  exists param,
    cluster single_component_fit
            [[[0.9; 0.1]]; [[0.8; 0.2]]; [[0.3; 0.7]]] 1
    = Ok ([[0]; [0]; [0]]%Z, param).
Proof.
  unfold cluster. simpl Py.getitem. simpl bind.
  simpl concat. unfold Np.array2. simpl. unfold Py.fsum. simpl.
  decide_Rlt. eexists. reflexivity.
Qed.

Lemma autoc_three_zero_rows :
  autoc [[0]; [0]; [0]]%Z 1 1 = Ok (Diagnostics [((0, 0)%Z, Np.NaN)] (-1) 1).
Proof.
  unfold autoc.
  change (Z.of_nat (length [[0]; [0]; [0]]%Z) <? 1 + 2)%Z with false.
  change (Py.getitem [[0]; [0]; [0]]%Z 0) with (Ok [0%Z]).
  change (Py.range 1) with [0%Z]. cbn [bind foldM length].
  change (Py.range (0 + 1)) with [0%Z]. cbn [foldM].
  unfold autoc_pair, coefficient.
  change (vectors [[0]; [0]; [0]]%Z 1 1 0 0) with (Ok ([1; 1], [1; 1])%Z).
  cbn [bind fst snd]. rewrite (corrcoef_constant _ _ 1).
  - reflexivity.
  - reflexivity.
  - repeat constructor.
Qed.

Lemma main_three_locations :
  exists m,
    main single_component_fit 1 100 ["A"; "B"]%string two_chromosomes = Ok m.
Proof.
  destruct cluster_three_locations as [param Hcluster].
  unfold main. change (length ["A"; "B"]%string) with 2%nat.
  rewrite read_two_chromosomes. cbn [bind Reader.t_panelprobs Reader.t_rhovals].
  rewrite Hcluster. cbn [bind].
  change (make_rho [[0]; [0]; [0]]%Z [[0.01]; [0.02]; [0.03]] 1)
    with (Ok [Py.fsum [0.01; 0.02; 0.03] / INR 3]).
  cbn [bind]. rewrite autoc_three_zero_rows. eexists. reflexivity.
Qed.

Lemma main_output_consistent_witness :
  exists m,
    main single_component_fit 1 100 ["A"; "B"]%string two_chromosomes = Ok m
    /\ (1 <> 0)%Z
    /\ length (m_ancestries m) = Z.to_nat 1
    /\ length (m_mu m) = Z.to_nat 1
    /\ length (m_theta m) = Z.to_nat 1
    /\ length (m_rho m) = Z.to_nat 1
    /\ Forall (fun row => Py.fsum row = 1) (m_p m)
    /\ ((0 < 1)%Z -> Py.fsum (m_mu m) = 1)
    /\ map fst (m_acs m) = map (fun p => (snd p, fst p)) (pairs 1).
Proof.
  destruct main_three_locations as [m Hm]. exists m.
  split; [exact Hm|].
  exact (main_output_consistent single_component_fit 1 100 ["A"; "B"]%string
           two_chromosomes m Hm).
Defined.

(** ** The emission-error value as a probability *)

(** X19.  For every reference-haplotype count of at least 1 the emitted
    theta is positive and at most 1/3 (its value for a count of 1). *)
Theorem theta_in_range (n : Z) :
  (1 <= n)%Z -> 0 < theta n <= 1 / 3.
Proof.
  intros Hn. rewrite theta_closed_form by assumption.
  assert (1 <= IZR n) as Hn1 by (apply IZR_le in Hn; exact Hn).
  assert (0 <= ln (IZR n)) as Hln.
  { rewrite <- ln_1. destruct (Req_dec_T (IZR n) 1) as [->|Hne].
    - lra.
    - left. apply ln_increasing; lra. }
  assert (1 * (0 + 0.5) <= IZR n * (ln (IZR n) + 0.5)) as Hprod
    by (apply Rmult_le_compat; lra).
  split.
  - apply Rinv_0_lt_compat. lra.
  - unfold Rdiv. rewrite Rmult_1_l. apply Rinv_le_contravar; lra.
Qed.

Lemma theta_in_range_witness : 0 < theta 100 <= 1 / 3.
Proof.
  apply (theta_in_range 100). lia.
Defined.

(** ** The rows of the table against the locations of the body *)

Lemma step_rows (npanel : nat) (st st' : Reader.state) (ln : Reader.line)
  (acc : Z * list (string * list Z)) :
  Reader.step npanel st ln = Ok st' ->
  reader_inv npanel st ->
  fst acc = Reader.oldlocindex st ->
  rows_inv st acc -> rows_inv st' (Reader.locations_step acc ln).
Proof.
  intros H (_ & Hin & _) Hold Hrows.
  destruct ln as [|locindex chrom hapindex thisrho probs].
  - cbn in H. injection H as <-. exact Hrows.
  - apply step_Rec_Ok in H. cbv zeta in H.
    destruct (on_chrom_keeps chrom st Hin) as (Hpp & _ & _ & _ & _ & Ho).
    cbv zeta in Hpp, Ho.
    remember (Reader.on_chrom chrom st) as st0 eqn:Hst0. clear Hst0.
    unfold rows_inv in *. rewrite <- Hpp in Hrows. rewrite <- Ho in Hold.
    clear Hpp Ho Hin st.
    destruct H as (_ & Hpp' & _ & i & [Hnew|Hsame]).
    + destruct Hnew as (Hne & _ & Hi & Happ & _). subst i.
      apply append_at_new_slot in Happ.
      cbn [Reader.locations_step]. rewrite Hold.
      destruct (Z.eqb_spec locindex (Reader.oldlocindex st0)); [contradiction|].
      cbn [negb snd]. rewrite Hpp', Happ. rewrite !map_app in *.
      rewrite <- Hrows, <- app_assoc. reflexivity.
    + destruct Hsame as (Heq & Hi & Happ & _).
      apply append_at_split in Happ.
      destruct Happ as (l1 & row & l2 & Hl & Hl1 & Hl').
      assert (l2 = []).
      { rewrite Hl, length_app in Hi. cbn in Hi.
        destruct l2; [reflexivity | cbn in Hi; lia]. }
      subst l2.
      cbn [Reader.locations_step]. rewrite Hold.
      destruct (Z.eqb_spec locindex (Reader.oldlocindex st0)); [|contradiction].
      cbn [negb]. rewrite Hl in Hrows. rewrite Hpp', Hl'.
      destruct (rev (snd acc)) as [|[c haps] front] eqn:Hrev.
      * apply (f_equal (@rev _)) in Hrev. rewrite rev_involutive in Hrev.
        rewrite Hrev in Hrows. cbn in Hrows.
        apply (f_equal (@length _)) in Hrows.
        rewrite length_map, !length_app in Hrows. cbn in Hrows. lia.
      * apply (f_equal (@rev _)) in Hrev. rewrite rev_involutive in Hrev.
        cbn [rev] in Hrev. rewrite Hrev in Hrows. cbn [snd].
        rewrite !map_app in Hrows |- *. cbn [map snd] in Hrows |- *.
        rewrite app_assoc in Hrows |- *.
        apply app_inj_tail in Hrows. destruct Hrows as [Hfront Hlast].
        rewrite Hfront, !length_app, Hlast. reflexivity.
Qed.

Lemma loop_rows (npanel : nat) (body : list Reader.line)
  (st st' : Reader.state) (acc : Z * list (string * list Z)) :
  Reader.loop npanel st body = Ok st' ->
  reader_inv npanel st ->
  fst acc = Reader.oldlocindex st -> length (snd acc) = slots st ->
  rows_inv st acc ->
  rows_inv st' (fold_left Reader.locations_step body acc).
Proof.
  revert st acc. induction body as [|ln body IH];
    intros st acc H Hinv Hold Hslots Hrows; cbn in H.
  - injection H as <-. exact Hrows.
  - bind_inv H.
    destruct (step_slots _ _ _ _ acc Hrun Hold Hslots) as [Hold' Hslots'].
    cbn [fold_left]. apply (IH _ _ H (step_inv _ _ _ _ Hrun Hinv) Hold' Hslots').
    apply (step_rows _ _ _ _ _ Hrun Hinv Hold Hrows).
Qed.

(** X20.  Whenever the reader returns, the table has one row per location
    of the body, in file order, and each row holds as many probability
    vectors as the location lists haplotype indices. *)
Theorem read_rows_match_locations (npanel : nat) (body : list Reader.line)
  (tbl : Reader.table) :
  Reader.read npanel body = Ok tbl ->
  map (@length _) (Reader.t_panelprobs tbl)
  = map (fun l => length (snd l)) (Reader.locations body).
Proof.
  unfold Reader.read. intros H. bind_inv H. injection H as <-. cbn.
  apply (loop_rows _ _ _ _ _ Hrun (init_inv npanel)); reflexivity.
Qed.

Lemma read_rows_match_locations_witness :
  map (@length _) [[[0.9; 0.1]]; [[0.8; 0.2]]; [[0.3; 0.7]]]
  = map (fun l => length (snd l)) (Reader.locations two_chromosomes).
Proof.
  exact (read_rows_match_locations 2 two_chromosomes _ read_two_chromosomes).
Defined.

(** X21.  When every location lists as many haplotypes as the first and the
    fit predicts one label per vector, the label matrix has the shape of
    the table: one row per location, one label per haplotype. *)
Theorem cluster_labelmatrix_shape
  (fit : list (list R) -> Z -> result (list (list R) * list Z))
  (panelprobs : list (list (list R))) (nanc : Z)
  (labelmatrix : list (list Z)) (param : list (list R)) :
  cluster fit panelprobs nanc = Ok (labelmatrix, param) ->
  Forall (fun location => length location = length (hd [] panelprobs))
         panelprobs ->
  (forall transformed means_ labels,
      fit transformed nanc = Ok (means_, labels) ->
      length labels = length transformed) ->
  map (@length _) labelmatrix = map (@length _) panelprobs.
Proof.
  intros H Hrect Hfit. apply cluster_Ok in H.
  destruct H as (whichdrop & means_ & labels & Hh & _ & Hrun & -> & _).
  apply Hfit in Hrun. rewrite length_map in Hrun.
  rewrite (concat_length_uniform _ _ Hrect) in Hrun.
  pose proof (chunks_full_rows _ _ _ Hh Hrun) as Hfull.
  pose proof (chunks_length_full _ _ _ Hh Hrun) as Hcount.
  remember (chunks (length (hd [] panelprobs)) labels) as lm eqn:Hlm.
  remember (length (hd [] panelprobs)) as h eqn:Hheq.
  clear Hlm Hheq Hrun Hh. revert lm Hfull Hcount.
  induction Hrect as [|loc pp Hloc _ IH]; intros lm Hfull Hcount.
  - destruct lm; [reflexivity | discriminate Hcount].
  - destruct lm as [|row lm]; [discriminate Hcount|].
    apply Forall_cons_iff in Hfull. destruct Hfull as [Hrow Hfull].
    injection Hcount as Hcount. cbn [map]. rewrite Hrow, Hloc.
    f_equal. apply IH; assumption.
Qed.

Lemma cluster_labelmatrix_shape_witness :
  map (@length _) [[0%Z]] = map (@length _) small_table.
Proof.
  apply (cluster_labelmatrix_shape single_component_fit small_table 1 [[0%Z]]
           _ cluster_small_table).
  - repeat constructor.
  - intros transformed means_ labels H. unfold single_component_fit in H.
    cbn [Z.eqb Pos.eqb negb] in H. injection H as _ <-. apply length_map.
Defined.

Lemma main_fewer_than_three_locations_witness :
  exists e,
    main single_component_fit 1 100 ["A"; "B"]%string two_locations = Raise e.
Proof.
  apply (main_fewer_than_three_locations single_component_fit 1 100
           ["A"; "B"]%string two_locations
           (Reader.mkTable [[[0.6; 0.4]]; [[0.3; 0.7]]] [[0.01]; [0.02]] [0%Z])).
  - reflexivity.
  - cbn. lia.
  - repeat constructor.
  - intros transformed means_ labels H. unfold single_component_fit in H.
    cbn [Z.eqb Pos.eqb negb] in H. injection H as _ <-. apply length_map.
Defined.

(** ** The table holds the records in file order *)

Lemma step_flat (npanel : nat) (st st' : Reader.state) (ln : Reader.line) :
  Reader.step npanel st ln = Ok st' ->
  reader_inv npanel st ->
  concat (Reader.panelprobs st' ++ Reader.panelprobschrom st')
  = concat (Reader.panelprobs st ++ Reader.panelprobschrom st)
    ++ line_probs ln
  /\ concat (Reader.rhovals st' ++ Reader.rhovalschrom st')
     = concat (Reader.rhovals st ++ Reader.rhovalschrom st) ++ line_rho ln.
Proof.
  intros H (_ & Hin & _).
  destruct ln as [|locindex chrom hapindex thisrho probs].
  - cbn in H. injection H as <-. cbn. rewrite !app_nil_r. split; reflexivity.
  - apply step_Rec_Ok in H. cbv zeta in H.
    destruct (on_chrom_keeps chrom st Hin) as (Hpp & Hrv & Hcases & _).
    cbv zeta in Hpp, Hrv, Hcases.
    assert (Hin0 : length (Reader.panelprobschrom (Reader.on_chrom chrom st))
                   = length (Reader.rhovalschrom (Reader.on_chrom chrom st))).
    { destruct Hcases as [(-> & -> & _)|(-> & -> & _)];
        [apply map_length_same_length; exact Hin | reflexivity]. }
    remember (Reader.on_chrom chrom st) as st0 eqn:Hst0. clear Hst0 Hcases.
    rewrite <- Hpp, <- Hrv. clear Hpp Hrv Hin st.
    destruct H as (_ & Hpp' & Hrv' & i & [Hnew|Hsame]).
    + destruct Hnew as (_ & _ & Hi & Happ & Harv & _). subst i.
      apply append_at_new_slot in Happ. rewrite Hin0 in Harv.
      apply append_at_new_slot in Harv.
      rewrite Hpp', Hrv', Happ, Harv, !app_assoc, !concat_app. cbn.
      split; reflexivity.
    + destruct Hsame as (_ & Hi & Happ & Harv & _).
      apply append_at_split in Happ, Harv.
      destruct Happ as (l1 & row & l2 & Hl & Hl1 & Hl').
      destruct Harv as (m1 & r & m2 & Hm & Hm1 & Hm').
      assert (l2 = []).
      { rewrite Hl, length_app in Hi. cbn in Hi.
        destruct l2; [reflexivity | cbn in Hi; lia]. }
      assert (m2 = []).
      { rewrite Hin0, Hm, length_app in Hi. cbn in Hi.
        destruct m2; [reflexivity | cbn in Hi; lia]. }
      subst l2 m2.
      rewrite Hpp', Hrv', Hl', Hm', Hl, Hm, !concat_app. cbn.
      rewrite !app_nil_r, <- !app_assoc. split; reflexivity.
Qed.

Lemma loop_flat (npanel : nat) (body : list Reader.line)
  (st st' : Reader.state) :
  Reader.loop npanel st body = Ok st' ->
  reader_inv npanel st ->
  concat (Reader.panelprobs st' ++ Reader.panelprobschrom st')
  = concat (Reader.panelprobs st ++ Reader.panelprobschrom st)
    ++ flat_map line_probs body
  /\ concat (Reader.rhovals st' ++ Reader.rhovalschrom st')
     = concat (Reader.rhovals st ++ Reader.rhovalschrom st)
       ++ flat_map line_rho body.
Proof.
  revert st. induction body as [|ln body IH]; intros st H Hinv; cbn in H.
  - injection H as <-. cbn. rewrite !app_nil_r. split; reflexivity.
  - bind_inv H.
    destruct (IH _ H (step_inv _ _ _ _ Hrun Hinv)) as [-> ->].
    destruct (step_flat _ _ _ _ Hrun Hinv) as [-> ->].
    cbn [flat_map]. rewrite <- !app_assoc. split; reflexivity.
Qed.

(** X23.  Whenever the reader returns, the table holds every record once and
    in file order: flattened over locations, the probability table is the
    list of the records' probability vectors and the recombination table
    the list of their recombination values. *)
Theorem read_keeps_records_in_order (npanel : nat) (body : list Reader.line)
  (tbl : Reader.table) :
  Reader.read npanel body = Ok tbl ->
  concat (Reader.t_panelprobs tbl) = flat_map line_probs body
  /\ concat (Reader.t_rhovals tbl) = flat_map line_rho body.
Proof.
  unfold Reader.read. intros H. bind_inv H. injection H as <-. cbn.
  exact (loop_flat _ _ _ _ Hrun (init_inv npanel)).
Qed.

Lemma read_keeps_records_in_order_witness :
  concat [[[0.9; 0.1]]; [[0.8; 0.2]]; [[0.3; 0.7]]]
  = flat_map line_probs two_chromosomes
  /\ concat [[0.01]; [0.02]; [0.03]] = flat_map line_rho two_chromosomes.
Proof.
  exact (read_keeps_records_in_order 2 two_chromosomes _ read_two_chromosomes).
Defined.

(** * The claims on the matrix, on theta and on rounding, in full *)

Lemma insert_col_Ok (j : nat) (x : list R) (v : R) (row : list R) :
  Np.insert_col j x v = Ok row ->
  row = firstn j x ++ v :: skipn j x /\ length row = S (length x).
Proof.
  unfold Np.insert_col. destruct (Nat.leb_spec j (length x)); [|discriminate].
  intros [= <-]. split; [reflexivity|].
  rewrite length_app, length_firstn. cbn [length]. rewrite length_skipn. lia.
Qed.

(** C1.  Whenever the clusterer runs to its return, the matrix it returns
    has one row per mean fitted on the vectors with the column of largest
    sum dropped; each row is its mean with one entry more, [1 - sum(mean)],
    put back at the dropped column, and so sums to 1 (in exact
    arithmetic). *)
Theorem cluster_rows_sum_to_one
  (fit : list (list R) -> Z -> result (list (list R) * list Z))
  (panelprobs : list (list (list R))) (nanc : Z)
  (labelmatrix : list (list Z)) (param : list (list R)) :
  cluster fit panelprobs nanc = Ok (labelmatrix, param) ->
  exists whichdrop means_ labels,
    Np.argmax (Np.sum0 (concat panelprobs)) = Ok whichdrop /\
    fit (map (Np.delete_col whichdrop) (concat panelprobs)) nanc
    = Ok (means_, labels) /\
    length param = length means_ /\
    Forall2 (fun x row =>
               row = firstn whichdrop x ++ (1 - Py.fsum x) :: skipn whichdrop x
               /\ length row = S (length x)
               /\ nth whichdrop row 0 = 1 - Py.fsum x
               /\ Py.fsum row = 1)
            means_ param.
Proof.
  intros H. apply cluster_Ok in H.
  destruct H as (whichdrop & means_ & labels & _ & Harg & Hfit & _ & Hins).
  exists whichdrop, means_, labels.
  split; [exact Harg|]. split; [exact Hfit|].
  apply insert1_rows in Hins. split.
  - symmetry. apply (Forall2_length Hins).
  - clear Hfit.
    induction Hins as [|x row means_ param Hrow _ IH]; constructor.
    + destruct (insert_col_Ok _ _ _ _ Hrow) as [Heq Hlen].
      destruct (delete_insert_col _ _ _ _ Hrow) as [_ Hnth].
      pose proof (insert_col_sum _ _ _ _ Hrow) as Hsum.
      repeat split; [exact Heq | exact Hlen | exact Hnth | lra].
    + exact IH.
Qed.

Lemma cluster_rows_sum_to_one_witness :
  exists whichdrop means_ labels,
    Np.argmax (Np.sum0 (concat small_table)) = Ok whichdrop /\
    single_component_fit (map (Np.delete_col whichdrop) (concat small_table)) 1
    = Ok (means_, labels) /\
    length [[(0 + 0.2) / INR 1;
             1 - Py.fsum [(0 + 0.2) / INR 1; (0 + 0.3) / INR 1];
             (0 + 0.3) / INR 1]] = length means_ /\
    Forall2 (fun x row =>
               row = firstn whichdrop x ++ (1 - Py.fsum x) :: skipn whichdrop x
               /\ length row = S (length x)
               /\ nth whichdrop row 0 = 1 - Py.fsum x
               /\ Py.fsum row = 1)
            means_
            [[(0 + 0.2) / INR 1;
              1 - Py.fsum [(0 + 0.2) / INR 1; (0 + 0.3) / INR 1];
              (0 + 0.3) / INR 1]].
Proof.
  exact (cluster_rows_sum_to_one single_component_fit small_table 1 _ _
           cluster_small_table).
Defined.

(** C9.  The rows written under [theta[i][j]] are [nanc] rows of [npanel]
    copies of one value; that value is [lambda / (2 lambda + 2 n)] with
    [lambda = 1 / (ln n + 0.5)] for the reference-haplotype count [n]; and
    for counts from 2 upwards a smaller count gives a strictly larger value
    (over the reals). *)
Theorem theta_uniform_and_decreasing (nanc : Z) (npanel : nat) (n m : Z) :
  (2 <= n)%Z -> (n < m)%Z ->
  theta_rows nanc npanel n
  = repeat (repeat (theta n) npanel) (Z.to_nat nanc)
  /\ mylambda n = 1 / (ln (IZR n) + 0.5)
  /\ theta n = mylambda n / (2 * mylambda n + 2 * IZR n)
  /\ theta n
     = (1 / (ln (IZR n) + 0.5)) / (2 * (1 / (ln (IZR n) + 0.5)) + 2 * IZR n)
  /\ theta m < theta n.
Proof.
  intros Hn Hnm.
  split; [|split; [reflexivity|split; [reflexivity|split; [reflexivity|]]]].
  - unfold theta_rows, Py.range. rewrite map_map.
    generalize (Z.to_nat nanc) as k. intros k. generalize 0%nat as s.
    induction k as [|k IH]; intros s; simpl.
    + reflexivity.
    + rewrite IH. reflexivity.
  - rewrite !theta_closed_form by lia.
    assert (2 <= IZR n) as Hn2 by (apply IZR_le in Hn; exact Hn).
    assert (IZR n < IZR m) as Hlt by (apply IZR_lt; exact Hnm).
    assert (0 < ln (IZR n)) as Hln.
    { rewrite <- ln_1. apply ln_increasing; lra. }
    assert (ln (IZR n) < ln (IZR m)) as Hlnlt.
    { apply ln_increasing; lra. }
    assert (IZR n * (ln (IZR n) + 0.5) < IZR m * (ln (IZR m) + 0.5)) as Hmono.
    { apply Rmult_le_0_lt_compat; lra. }
    assert (0 < IZR n * (ln (IZR n) + 0.5)) as Hpos.
    { apply Rmult_lt_0_compat; lra. }
    apply Rinv_lt_contravar.
    + apply Rmult_lt_0_compat; lra.
    + lra.
Qed.

Lemma theta_uniform_and_decreasing_witness :
  theta_rows 2 3 2 = repeat (repeat (theta 2) 3) (Z.to_nat 2)
  /\ mylambda 2 = 1 / (ln (IZR 2) + 0.5)
  /\ theta 2 = mylambda 2 / (2 * mylambda 2 + 2 * IZR 2)
  /\ theta 2
     = (1 / (ln (IZR 2) + 0.5)) / (2 * (1 / (ln (IZR 2) + 0.5)) + 2 * IZR 2)
  /\ theta 3 < theta 2.
Proof.
  apply (theta_uniform_and_decreasing 2 3 2 3); lia.
Defined.

(** C10.  When [autoc] returns its diagnostics, the dictionary has one
    entry per pair of the two loops, each the coefficient of its pair
    rounded to 3 decimals, while the returned maximum cross-correlation and
    minimum auto-correlation are unrounded coefficients (or the initial
    -1.0, 1.0) that bound all unrounded coefficients.  On [two_blocks] with
    two components the maximum is the unrounded coefficient -2/3 of the
    pair stored as -0.667, the minimum the unrounded 2/3 of a pair stored
    as 0.667, and neither equals any value of the dictionary. *)
Theorem autoc_rounds_entries_not_extremes :
  (forall (labelmatrix : list (list Z)) (nanc lag : Z)
          (acs : dict) (maxcrosscor minautocor : R),
      autoc labelmatrix nanc lag = Ok (Diagnostics acs maxcrosscor minautocor) ->
      let coef := coefficient labelmatrix lag (length (hd [] labelmatrix)) in
      map fst acs = map (fun p => (snd p, fst p)) (pairs nanc) /\
      (forall i2 i1 v, In ((i2, i1), v) acs ->
         exists ac, coef i1 i2 = Ok ac /\ v = Np.round3 ac) /\
      (maxcrosscor = -1 \/
       exists i1 i2, i1 <> i2 /\ coef i1 i2 = Ok (Np.Fin maxcrosscor)) /\
      (minautocor = 1 \/ exists i, coef i i = Ok (Np.Fin minautocor)) /\
      (forall i1 i2 r, (0 <= i2 < i1)%Z -> (i1 < nanc)%Z ->
         coef i1 i2 = Ok (Np.Fin r) -> r <= maxcrosscor) /\
      (forall i r, (0 <= i < nanc)%Z ->
         coef i i = Ok (Np.Fin r) -> minautocor <= r))
  /\
  (exists (labelmatrix : list (list Z)) (nanc : Z)
          (acs : dict) (maxcrosscor minautocor : R),
      let coef := coefficient labelmatrix 1 (length (hd [] labelmatrix)) in
      autoc labelmatrix nanc 1 = Ok (Diagnostics acs maxcrosscor minautocor) /\
      (exists i1 i2 r,
          i1 <> i2 /\ coef i1 i2 = Ok (Np.Fin maxcrosscor) /\
          In ((i2, i1), Np.Fin r) acs /\
          Np.Fin r = Np.round3 (Np.Fin maxcrosscor) /\ r <> maxcrosscor) /\
      (exists i r,
          coef i i = Ok (Np.Fin minautocor) /\
          In ((i, i), Np.Fin r) acs /\
          Np.Fin r = Np.round3 (Np.Fin minautocor) /\ r <> minautocor) /\
      forall k v, In (k, v) acs ->
        v <> Np.Fin maxcrosscor /\ v <> Np.Fin minautocor).
Proof.
  split.
  - intros labelmatrix nanc lag acs mx mn H coef.
    apply autoc_Diagnostics in H.
    pose proof (pair_loop_keys _ _ _ _ _ _ _ _ _ _ H (NoDup_pairs_keys nanc))
      as Hkeys.
    apply pair_loop_Ok in H.
    destruct H as (Hent & _ & _ & Hmx & Hmn & Hbound).
    split; [exact Hkeys|].
    split; [|split; [|split; [|split]]].
    + intros i2 i1 v Hin. destruct (Hent _ _ Hin) as [[]|Hex]. exact Hex.
    + exact Hmx.
    + exact Hmn.
    + intros i1 i2 r Hi2 Hi1 Hr.
      refine (proj1 (Hbound i1 i2 r _ Hr) _); [|lia].
      apply pairs_In. lia.
    + intros i r Hi Hr.
      refine (proj2 (Hbound i i r _ Hr) eq_refl).
      apply pairs_In. lia.
  - exists two_blocks, 2%Z. eexists _, _, _. cbv zeta.
    split; [exact autoc_two_blocks|]. split; [|split].
    + exists 1%Z, 0%Z, (- 0.667).
      split; [discriminate|]. split; [exact coefficient_two_blocks_10|].
      split; [right; left; reflexivity|].
      split; [symmetry; exact round3_minus_two_thirds | lra].
    + exists 0%Z, 0.667.
      split; [exact coefficient_two_blocks_00|].
      split; [left; reflexivity|].
      split; [symmetry; exact round3_two_thirds | lra].
    + intros k v [[= _ <-]|[[= _ <-]|[[= _ <-]|[]]]];
        split; intros [=]; lra.
Qed.

Lemma autoc_rounds_entries_not_extremes_witness :
  map fst [((0, 0)%Z, Np.Fin 0.667);
           ((0, 1)%Z, Np.Fin (- 0.667));
           ((1, 1)%Z, Np.Fin 0.667)]
  = map (fun p => (snd p, fst p)) (pairs 2)
  /\ (forall i2 i1 v,
        In ((i2, i1), v) [((0, 0)%Z, Np.Fin 0.667);
                          ((0, 1)%Z, Np.Fin (- 0.667));
                          ((1, 1)%Z, Np.Fin 0.667)] ->
        exists ac, coefficient two_blocks 1 1 i1 i2 = Ok ac /\ v = Np.round3 ac)
  /\ (- 2 / 3 = -1 \/
      exists i1 i2, i1 <> i2 /\
                    coefficient two_blocks 1 1 i1 i2 = Ok (Np.Fin (- 2 / 3))).
Proof.
  destruct (proj1 autoc_rounds_entries_not_extremes two_blocks 2%Z 1%Z _ _ _
              autoc_two_blocks) as (Hkeys & Hent & Hmx & _).
  split; [exact Hkeys|]. split; [exact Hent | exact Hmx].
Defined.
